(** * The service manager ([Service::SM]) of the emulated IPC layer

    A shallow embedding of [core/hle/service/sm/sm.cpp]: the registry of
    named services ([ServiceManager]) and the wire-facing dispatcher
    ([SM]) that answers [Initialize] and [GetService].

    The kernel's port and session primitives, the IPC marshalling helpers
    and the result-code headers are collaborators of this translation
    unit.  The port primitives are taken as parameters of the
    development (section [Registry]); a small concrete kernel is given
    afterwards so that every statement can be run on actual inputs. *)

From Stdlib Require Import ZArith Ascii String.
From stdpp Require Import gmap strings list fin_maps.

Local Open Scope string_scope.

(** ** Result codes *)

(** Modelled from the spec: the result-code constants are declared in
    [core/hle/result.h], [core/hle/service/sm/sm.h] and
    [core/hle/kernel/errors.h], none of which accompanies [sm.cpp].  The
    error-handling section of the specification lists five distinct,
    recoverable codes; [ERR_OTHER] stands for any further code a kernel
    primitive may hand back.  The specification has a single
    capacity-exceeded code: the constant that [SM::GetService] tests
    ([Kernel::ERR_MAX_CONNECTIONS_REACHED]) and the one it pushes
    ([ERR_MAX_CONNECTIONS_REACHED]) are kept under their two source names
    below and denote that one code. *)
Inductive ErrorCode : Type :=
  | ERR_SERVICE_NOT_REGISTERED
  | ERR_MAX_CONNECTIONS_REACHED
  | ERR_INVALID_NAME_SIZE
  | ERR_NAME_CONTAINS_NUL
  | ERR_ALREADY_REGISTERED
  | ERR_OTHER (raw : Z).

Inductive ResultCode : Type :=
  | RESULT_SUCCESS
  | RESULT_ERROR (e : ErrorCode).

Coercion RESULT_ERROR : ErrorCode >-> ResultCode.

(** Modelled from the spec: [Kernel::ERR_MAX_CONNECTIONS_REACHED] of the
    absent [core/hle/kernel/errors.h], the code a port answers when its
    session limit is reached; the specification knows one
    capacity-exceeded code. *)
Definition Kernel_ERR_MAX_CONNECTIONS_REACHED : ErrorCode :=
  ERR_MAX_CONNECTIONS_REACHED.

#[global] Instance ErrorCode_eq_dec : EqDecision ErrorCode.
Proof. solve_decision. Defined.

#[global] Instance ResultCode_eq_dec : EqDecision ResultCode.
Proof. solve_decision. Defined.

Definition IsSuccess (c : ResultCode) : bool :=
  match c with RESULT_SUCCESS => true | RESULT_ERROR _ => false end.

Definition IsError (c : ResultCode) : bool := negb (IsSuccess c).

(** [ResultVal<T>]: either a value (built by [MakeResult]) or an error
    code; the constructor taking a code asserts that it is an error, which
    the type of [Failure] records. *)
Inductive ResultVal (T : Type) : Type :=
  | MakeResult (v : T)
  | Failure (e : ErrorCode).

Arguments MakeResult {T} v.
Arguments Failure {T} e.

Definition Code {T} (r : ResultVal T) : ResultCode :=
  match r with
  | MakeResult _ => RESULT_SUCCESS
  | Failure e => RESULT_ERROR e
  end.

Definition Succeeded {T} (r : ResultVal T) : bool := IsSuccess (Code r).
Definition Failed {T} (r : ResultVal T) : bool := IsError (Code r).

(** ** Service names *)

(** The terminator byte ['\0']. *)
Definition NUL : ascii := Ascii.zero.

(** [std::string::find(char)]: position of the first occurrence, [None]
    for [npos]. *)
Fixpoint string_find (c : ascii) (s : string) : option nat :=
  match s with
  | EmptyString => None
  | String a rest =>
      if Ascii.eqb a c then Some 0%nat else option_map S (string_find c rest)
  end.

Definition ValidateServiceName (name : string) : ResultCode :=
  if ((String.length name <=? 0)%nat || (8 <? String.length name)%nat)%bool then
    RESULT_ERROR ERR_INVALID_NAME_SIZE
  else if bool_decide (string_find NUL name ≠ None) then
    RESULT_ERROR ERR_NAME_CONTAINS_NUL
  else
    RESULT_SUCCESS.

(** The characters of a name, as a list. *)
Definition chars (s : string) : list ascii := list_ascii_of_string s.

(** [std::string] built from a [char] pointer: the characters before the first terminator
    of the array [buf].  When no element of the array is a terminator the
    constructor keeps reading behind the array; that case has no defined
    result and is [None] here. *)
Fixpoint string_from_cstr (buf : list ascii) : option string :=
  match buf with
  | [] => None
  | c :: rest =>
      if Ascii.eqb c NUL then Some EmptyString
      else option_map (String c) (string_from_cstr rest)
  end.

(** ** Outcomes of code that can abort *)

(** [Done]: the call returned.  [AssertionFailed]: an [ASSERT] was violated
    and the process is stopped.  [Undefined]: the call left defined
    behaviour (a read behind an array, a null dereference). *)
Inductive Outcome (A : Type) : Type :=
  | Done (a : A)
  | AssertionFailed
  | Undefined.

Arguments Done {A} a.
Arguments AssertionFailed {A}.
Arguments Undefined {A}.

(** ** The kernel's port and session primitives *)

(** The interface [sm.cpp] uses from [Kernel::ServerPort],
    [Kernel::ClientPort], [ServiceFramework] and [Controller].  Objects are
    held through shared pointers; a value of [ServerPort], [ClientPort] or
    [ClientSession] is such a reference, and the objects themselves live
    in the [Kernel] state that every primitive threads. *)
Class KernelPorts : Type := {
  Kernel : Type;
  ServerPort : Type;
  ClientPort : Type;
  ClientSession : Type;
  (** [Kernel::ServerPort::CreatePortPair(max_sessions, name)] *)
  CreatePortPair : nat -> string -> Kernel -> (ServerPort * ClientPort) * Kernel;
  (** [ClientPort::Connect()] *)
  Connect : ClientPort -> Kernel -> ResultVal ClientSession * Kernel;
  (** [ServiceFramework::InstallAsNamedPort()] of a service with the given
      name and session limit *)
  InstallAsNamedPort : string -> nat -> Kernel -> Kernel;
  (** [Controller::InvokeRequest(context)], on a request given by its
      command buffer *)
  Controller_InvokeRequest : (nat -> Z) -> Kernel -> Kernel
}.

(** ** A concrete kernel *)

(** Modelled from the spec: the port/session primitive of
    [core/hle/kernel/client_port.cpp] and [server_port.cpp], which are not
    part of the sources at hand.  A port pair is created atomically with a
    fixed session limit; connecting yields a session while the number of
    open sessions is below the limit and the capacity-exceeded code once it
    is reached.  Both endpoints of a pair are references to the same port
    object, identified by its index in the object table. *)
Module CountingKernel.

Record Port : Type := {
  port_name : string;
  max_sessions : nat;
  active_sessions : nat
}.

Record State : Type := {
  ports : list Port;
  named_ports : list (string * nat);
  control_requests : nat
}.

Definition empty : State :=
  {| ports := []; named_ports := []; control_requests := 0 |}.

Definition CreatePortPair (max : nat) (name : string) (k : State)
  : (nat * nat) * State :=
  let id := length (ports k) in
  ((id, id),
   {| ports := ports k ++ [{| port_name := name; max_sessions := max;
                              active_sessions := 0 |}];
      named_ports := named_ports k;
      control_requests := control_requests k |}).

Definition Connect (p : nat) (k : State) : ResultVal (nat * nat) * State :=
  match ports k !! p with
  | None => (Failure (ERR_OTHER (-1)), k)
  | Some po =>
      if (max_sessions po <=? active_sessions po)%nat then
        (Failure Kernel_ERR_MAX_CONNECTIONS_REACHED, k)
      else
        (MakeResult (p, active_sessions po),
         {| ports := <[p := {| port_name := port_name po;
                               max_sessions := max_sessions po;
                               active_sessions := S (active_sessions po) |}]>
                       (ports k);
            named_ports := named_ports k;
            control_requests := control_requests k |})
  end.

Definition InstallAsNamedPort (name : string) (max : nat) (k : State) : State :=
  let '((_, client), k1) := CreatePortPair max name k in
  {| ports := ports k1;
     named_ports := named_ports k1 ++ [(name, client)];
     control_requests := control_requests k1 |}.

Definition Controller_InvokeRequest (_ : nat -> Z) (k : State) : State :=
  {| ports := ports k;
     named_ports := named_ports k;
     control_requests := S (control_requests k) |}.

End CountingKernel.

Definition counting_kernel : KernelPorts :=
  {| Kernel := CountingKernel.State;
     ServerPort := nat;
     ClientPort := nat;
     ClientSession := nat * nat;
     CreatePortPair := CountingKernel.CreatePortPair;
     Connect := CountingKernel.Connect;
     InstallAsNamedPort := CountingKernel.InstallAsNamedPort;
     Controller_InvokeRequest := CountingKernel.Controller_InvokeRequest |}.

(** ** Requests and replies *)

(** Modelled from the spec: the request context of
    [core/hle/kernel/hle_ipc.h] is absent.  Per the wire table a request's
    data payload, after the command identifier, is a sequence of 32-bit
    words: two reserved words, then the raw name buffer. *)
Record HLERequestContext : Type := {
  cmd_buf : nat -> Z
}.

(** Modelled from the spec: the request parser of
    [core/hle/ipc_helpers.h] is absent; it reads the payload from a word
    index that starts behind the command identifier. *)
Record RequestParser : Type := {
  cmdbuf : nat -> Z;
  index : nat
}.

Definition MakeParser (ctx : HLERequestContext) : RequestParser :=
  {| cmdbuf := cmd_buf ctx; index := 0 |}.

(** Modelled from the spec: [Pop<u32>] of the absent parser consumes one
    32-bit word. *)
Definition Pop_u32 (rp : RequestParser) : Z * RequestParser :=
  (cmdbuf rp (index rp) mod 2 ^ 32,
   {| cmdbuf := cmdbuf rp; index := index rp + 1 |})%Z.

(** Byte [j] (0 to 3) of a word in memory, as a [char]; the host is
    little-endian. *)
Definition byte_of_word (w : Z) (j : nat) : ascii :=
  ascii_of_N (Z.to_N (Z.land (Z.shiftr w (8 * Z.of_nat j)) 255)).

(** Modelled from the spec: [PopRaw<T>] of the absent parser copies
    [sizeof(T)] bytes, here [n], starting at the current word and advances
    by whole words. *)
Definition PopRaw (n : nat) (rp : RequestParser) : list ascii * RequestParser :=
  (map (fun k => byte_of_word (cmdbuf rp (index rp + k / 4)) (k mod 4)) (seq 0 n),
   {| cmdbuf := cmdbuf rp; index := (index rp + (n + 3) / 4)%nat |}).

(** The name buffer [SM::GetService] pops: the two reserved words are
    consumed first, then nine raw bytes. *)
Definition GetService_name_buf (ctx : HLERequestContext) : list ascii :=
  let rp := MakeParser ctx in
  let '(_, rp) := Pop_u32 rp in
  let '(_, rp) := Pop_u32 rp in
  fst (PopRaw 9 rp).

Section Registry.

Context `{KP : KernelPorts}.

(** An object attached to a reply. *)
Inductive Object : Type :=
  | ObjClientSession (s : ClientSession)
  | ObjClientPort (p : ClientPort).

(** Modelled from the spec: the reply builder of the absent
    [core/hle/ipc_helpers.h].  A reply is declared with its number of
    parameter words, of handles to copy and of objects to move, and then
    filled: the result-code word first, then the objects handed to the
    caller. *)
Record RequestBuilder : Type := {
  normal_params_size : nat;
  num_handles_to_copy : nat;
  num_objects_to_move : nat;
  params : list ResultCode;
  objects : list Object
}.

Definition MakeBuilder (normal copy move : nat) : RequestBuilder :=
  {| normal_params_size := normal;
     num_handles_to_copy := copy;
     num_objects_to_move := move;
     params := [];
     objects := [] |}.

Definition Push (rb : RequestBuilder) (c : ResultCode) : RequestBuilder :=
  {| normal_params_size := normal_params_size rb;
     num_handles_to_copy := num_handles_to_copy rb;
     num_objects_to_move := num_objects_to_move rb;
     params := params rb ++ [c];
     objects := objects rb |}.

Definition PushObjects (rb : RequestBuilder) (o : Object) : RequestBuilder :=
  {| normal_params_size := normal_params_size rb;
     num_handles_to_copy := num_handles_to_copy rb;
     num_objects_to_move := num_objects_to_move rb;
     params := params rb;
     objects := objects rb ++ [o] |}.

(** *** The registry *)

(** The member functions of [SM] bound in its handler table. *)
Inductive SM_Handler : Type :=
  | SM_Initialize
  | SM_GetService.

Record FunctionInfo : Type := {
  expected_header : Z;
  handler_callback : option SM_Handler;
  function_name : string
}.

(** The [SM] object: [ServiceFramework("sm:", 4)] with its table. *)
Record SM : Type := {
  service_name : string;
  max_sessions : nat;
  handlers : list FunctionInfo
}.

Inductive Controller : Type := MakeController.

(** [ServiceManager]: the map of registered services, the weak pointer to
    the dispatcher ([None] is an expired one) and the owned controller. *)
Record ServiceManager : Type := {
  registered_services : gmap string ClientPort;
  sm_interface : option SM;
  controller_interface : option Controller
}.

(** Modelled from the spec: [ServiceFramework::InstallAsNamedPort] is
    absent.  The dispatcher installed under its well-known name is kept
    alive by that installation for the lifetime of the emulated system, so
    a weak pointer that was set to it does not expire: it is expired
    exactly when it was never set. *)
Definition expired (p : option SM) : bool :=
  match p with None => true | Some _ => false end.

Record World : Type := {
  service_manager : ServiceManager;
  kernel : Kernel
}.

(** [std::unordered_map::emplace]: inserts unless the key is present. *)
Definition emplace (k : string) (v : ClientPort) (m : gmap string ClientPort)
  : gmap string ClientPort :=
  match m !! k with
  | Some _ => m
  | None => <[k := v]> m
  end.

Definition functions : list FunctionInfo :=
  [ {| expected_header := 0; handler_callback := Some SM_Initialize;
       function_name := "Initialize" |};
    {| expected_header := 1; handler_callback := Some SM_GetService;
       function_name := "GetService" |};
    {| expected_header := 2; handler_callback := None;
       function_name := "RegisterService" |};
    {| expected_header := 3; handler_callback := None;
       function_name := "UnregisterService" |} ].

Definition MakeSM : SM :=
  {| service_name := "sm:"; max_sessions := 4; handlers := functions |}.

(** [ServiceManager::InstallInterfaces]: asserts that the weak pointer is
    expired, then creates the dispatcher, installs it as a named port,
    records it and creates the controller. *)
Definition InstallInterfaces (self : World) : Outcome World :=
  if expired (sm_interface (service_manager self)) then
    let sm := MakeSM in
    let k := InstallAsNamedPort (service_name sm) (max_sessions sm) (kernel self) in
    Done {| service_manager :=
              {| registered_services := registered_services (service_manager self);
                 sm_interface := Some sm;
                 controller_interface := Some MakeController |};
            kernel := k |}
  else AssertionFailed.

(** [ServiceManager::RegisterService]: [CASCADE_CODE] returns a
    validation error at once; a name found in the map is refused;
    otherwise one port pair is created, its client port stored and its
    server port returned. *)
Definition RegisterService (name : string) (max_sessions : nat) (w : World)
  : ResultVal ServerPort * World :=
  match ValidateServiceName name with
  | RESULT_ERROR e => (Failure e, w)
  | RESULT_SUCCESS =>
      match registered_services (service_manager w) !! name with
      | Some _ => (Failure ERR_ALREADY_REGISTERED, w)
      | None =>
          let '((server_port, client_port), k) :=
            CreatePortPair max_sessions name (kernel w) in
          (MakeResult server_port,
           {| service_manager :=
                {| registered_services :=
                     emplace name client_port
                       (registered_services (service_manager w));
                   sm_interface := sm_interface (service_manager w);
                   controller_interface :=
                     controller_interface (service_manager w) |};
              kernel := k |})
      end
  end.

(** [ServiceManager::GetServicePort]: validation, then the lookup; the
    stored shared pointer itself is returned. *)
Definition GetServicePort (name : string) (sm : ServiceManager)
  : ResultVal ClientPort :=
  match ValidateServiceName name with
  | RESULT_ERROR e => Failure e
  | RESULT_SUCCESS =>
      match registered_services sm !! name with
      | None => Failure ERR_SERVICE_NOT_REGISTERED
      | Some client_port => MakeResult client_port
      end
  end.

Definition with_kernel (w : World) (k : Kernel) : World :=
  {| service_manager := service_manager w; kernel := k |}.

(** [CASCADE_RESULT]: a failed lookup returns its code, otherwise the
    port is unwrapped and connected. *)
Definition ConnectToService (name : string) (w : World)
  : ResultVal ClientSession * World :=
  match GetServicePort name (service_manager w) with
  | Failure e => (Failure e, w)
  | MakeResult client_port =>
      let '(session, k) := Connect client_port (kernel w) in
      (session, with_kernel w k)
  end.

(** [ServiceManager::InvokeControlRequest]: forwards to the controller,
    through a pointer that is null before bring-up. *)
Definition InvokeControlRequest (context : HLERequestContext) (w : World)
  : Outcome World :=
  match controller_interface (service_manager w) with
  | None => Undefined
  | Some _ =>
      Done (with_kernel w (Controller_InvokeRequest (cmd_buf context) (kernel w)))
  end.

(** *** The dispatcher *)

(** [SM::Initialize]. *)
Definition Initialize (ctx : HLERequestContext) (w : World)
  : RequestBuilder * World :=
  let rb := MakeBuilder 1 0 0 in
  let rb := Push rb RESULT_SUCCESS in
  (rb, w).

(** [SM::GetService]. *)
Definition GetService (ctx : HLERequestContext) (w : World)
  : Outcome (RequestBuilder * World) :=
  let rp := MakeParser ctx in
  let '(unk1, rp) := Pop_u32 rp in
  let '(unk2, rp) := Pop_u32 rp in
  let '(name_buf, rp) := PopRaw 9 rp in
  match string_from_cstr name_buf with
  | None => Undefined
  | Some name =>
      let client_port := GetServicePort name (service_manager w) in
      match client_port with
      | Failure _ =>
          let rb := MakeBuilder 1 0 0 in
          let rb := Push rb (Code client_port) in
          Done (rb, w)
      | MakeResult port =>
          let '(session, k) := Connect port (kernel w) in
          match session with
          | MakeResult s =>
              let rb := MakeBuilder 1 0 1 in
              let rb := Push rb (Code session) in
              let rb := PushObjects rb (ObjClientSession s) in
              Done (rb, with_kernel w k)
          | Failure e =>
              if bool_decide (Code session
                              = RESULT_ERROR Kernel_ERR_MAX_CONNECTIONS_REACHED)
              then
                let rb := MakeBuilder 1 0 1 in
                let rb := Push rb (RESULT_ERROR ERR_MAX_CONNECTIONS_REACHED) in
                let rb := PushObjects rb (ObjClientPort port) in
                Done (rb, with_kernel w k)
              else
                let rb := MakeBuilder 1 0 0 in
                let rb := Push rb (Code session) in
                Done (rb, with_kernel w k)
          end
      end
  end.

(** The handler registered for a command identifier, if any. *)
Fixpoint find_handler (table : list FunctionInfo) (cmd : Z) : option SM_Handler :=
  match table with
  | [] => None
  | info :: rest =>
      if (expected_header info =? cmd)%Z then handler_callback info
      else find_handler rest cmd
  end.

(** Modelled from the spec: the generic dispatch of [ServiceFramework]
    is absent.  A command with a bound handler runs it; a reserved or
    unknown command is reported as unimplemented, produces no reply of
    this service and touches nothing. *)
Definition SM_InvokeRequest (cmd : Z) (ctx : HLERequestContext) (w : World)
  : Outcome (option RequestBuilder * World) :=
  match find_handler functions cmd with
  | Some SM_Initialize =>
      let '(rb, w1) := Initialize ctx w in Done (Some rb, w1)
  | Some SM_GetService =>
      match GetService ctx w with
      | Done (rb, w1) => Done (Some rb, w1)
      | AssertionFailed => AssertionFailed
      | Undefined => Undefined
      end
  | None => Done (None, w)
  end.

(** *** Runs of the registry *)

(** Every entry point of this translation unit. *)
Inductive Op : Type :=
  | OpInstallInterfaces
  | OpRegisterService (name : string) (max_sessions : nat)
  | OpGetServicePort (name : string)
  | OpConnectToService (name : string)
  | OpInvokeControlRequest (ctx : HLERequestContext)
  | OpInvokeRequest (cmd : Z) (ctx : HLERequestContext).

Definition step (op : Op) (w : World) : Outcome World :=
  match op with
  | OpInstallInterfaces => InstallInterfaces w
  | OpRegisterService name max_sessions =>
      Done (snd (RegisterService name max_sessions w))
  | OpGetServicePort name => Done w
  | OpConnectToService name => Done (snd (ConnectToService name w))
  | OpInvokeControlRequest ctx => InvokeControlRequest ctx w
  | OpInvokeRequest cmd ctx =>
      match SM_InvokeRequest cmd ctx w with
      | Done (_, w1) => Done w1
      | AssertionFailed => AssertionFailed
      | Undefined => Undefined
      end
  end.

Fixpoint run (ops : list Op) (w : World) : Outcome World :=
  match ops with
  | [] => Done w
  | op :: rest =>
      match step op w with
      | Done w1 => run rest w1
      | AssertionFailed => AssertionFailed
      | Undefined => Undefined
      end
  end.

(** A freshly constructed registry over a given kernel state. *)
Definition fresh (k : Kernel) : World :=
  {| service_manager :=
       {| registered_services := ∅;
          sm_interface := None;
          controller_interface := None |};
     kernel := k |}.

(** *** The composition the specification describes for [connect] *)

(** Fallible computations over the world. *)
Definition M (A : Type) : Type := World -> ResultVal A * World.

Definition bind {A B} (m : M A) (f : A -> M B) : M B :=
  fun w =>
    match m w with
    | (MakeResult a, w1) => f a w1
    | (Failure e, w1) => (Failure e, w1)
    end.

Definition resolve (name : string) : M ClientPort :=
  fun w => (GetServicePort name (service_manager w), w).

Definition connect_port (p : ClientPort) : M ClientSession :=
  fun w => let '(r, k) := Connect p (kernel w) in (r, with_kernel w k).

(** [connect(name)] in the specification's words: resolve the name, then
    connect on the result; the first failing step gives the error. *)
Definition connect_spec (name : string) : M ClientSession :=
  bind (resolve name) connect_port.

End Registry.

(** ** Concrete inputs *)

Module Examples.

(** A new registry over the empty counting kernel. *)
Definition w0 : @World counting_kernel :=
  @fresh counting_kernel CountingKernel.empty.

(** The registry after ["fs"] was registered with one session. *)
Definition w_fs : @World counting_kernel :=
  snd (@RegisterService counting_kernel "fs" 1 w0).

(** A request from a list of payload words; further words read as 0. *)
Definition request (words : list Z) : HLERequestContext :=
  {| cmd_buf := fun i => nth i words 0%Z |}.

(** [GetService("fs")]: two reserved words, then ["fs"] padded. *)
Definition ctx_fs : HLERequestContext := request [0; 0; 0x7366; 0; 0]%Z.

(** [GetService("nope")]. *)
Definition ctx_nope : HLERequestContext := request [0; 0; 0x65706f6e; 0; 0]%Z.

(** Nine non-zero bytes ["abcdefghi"] where the name buffer is read. *)
Definition ctx_unterminated : HLERequestContext :=
  request [0; 0; 0x64636261; 0x68676665; 0x69]%Z.

(** The eight bytes ["abcdefgh"] in the name field and a zero word after. *)
Definition ctx_eight : HLERequestContext :=
  request [0; 0; 0x64636261; 0x68676665; 0]%Z.

(** [GetService("fs")] again, with other reserved words and other bytes
    behind the terminator. *)
Definition ctx_fs_noise : HLERequestContext :=
  request [7; 9; 0x41007366; 0x42424242; 0x43]%Z.

(** The registry after a first [GetService("fs")] took the only session. *)
Definition w_fs_busy : @World counting_kernel :=
  match @GetService counting_kernel ctx_fs w_fs with
  | Done (_, w) => w
  | _ => w_fs
  end.

(** The new registry after bring-up. *)
Definition w_installed : @World counting_kernel :=
  match @InstallInterfaces counting_kernel w0 with
  | Done w => w
  | _ => w0
  end.

(** A nine-byte name with a terminator in the middle. *)
Definition long_name_with_nul : string := "abcd" ++ String NUL "efgh".

(** A four-byte name with a terminator in the middle. *)
Definition short_name_with_nul : string := "ab" ++ String NUL "c".

End Examples.

(** ** Properties *)

Lemma string_find_None c s : string_find c s = None <-> c ∉ chars s.
Proof.
  induction s as [|a rest IH]; simpl.
  - split; [intros _; apply not_elem_of_nil | reflexivity].
  - rewrite not_elem_of_cons. destruct (Ascii.eqb_spec a c) as [->|Hne].
    + split; [discriminate | intros [H _]; congruence].
    + destruct (string_find c rest); simpl.
      * split; [discriminate|]. intros [_ H]. apply IH in H. discriminate.
      * split; [|reflexivity]. intros _. split; [congruence|]. now apply IH.
Qed.

Lemma ValidateServiceName_success (name : string) :
  ValidateServiceName name = RESULT_SUCCESS <->
  (1 <= String.length name <= 8)%nat /\ NUL ∉ chars name.
Proof.
  unfold ValidateServiceName.
  destruct (Nat.leb_spec (String.length name) 0);
    destruct (Nat.ltb_spec 8 (String.length name)); cbn [orb];
    try (split; [discriminate | lia]).
  case_bool_decide as Hf.
  - split; [discriminate|]. intros [_ Hn]. apply string_find_None in Hn. done.
  - split; [|reflexivity]. intros _. split; [lia|].
    apply string_find_None. destruct (string_find NUL name); [|done].
    exfalso. revert Hf. clear. intros Hf.
    first [discriminate Hf | apply Hf; discriminate].
Qed.

Lemma ValidateServiceName_size (name : string) :
  (String.length name = 0 \/ 8 < String.length name)%nat ->
  ValidateServiceName name = RESULT_ERROR ERR_INVALID_NAME_SIZE.
Proof.
  intros H. unfold ValidateServiceName.
  destruct (Nat.leb_spec (String.length name) 0);
    destruct (Nat.ltb_spec 8 (String.length name)); cbn [orb];
    try reflexivity.
  lia.
Qed.

Lemma ValidateServiceName_nul (name : string) :
  (1 <= String.length name <= 8)%nat -> NUL ∈ chars name ->
  ValidateServiceName name = RESULT_ERROR ERR_NAME_CONTAINS_NUL.
Proof.
  intros Hlen Hin. unfold ValidateServiceName.
  destruct (Nat.leb_spec (String.length name) 0);
    destruct (Nat.ltb_spec 8 (String.length name)); cbn [orb]; try lia.
  case_bool_decide as Hf; [reflexivity|].
  exfalso. destruct (string_find NUL name) eqn:E.
  - revert Hf. clear. intros Hf.
    first [discriminate Hf | apply Hf; discriminate].
  - apply string_find_None in E. done.
Qed.

Lemma string_from_cstr_Some (buf : list ascii) (s : string) :
  string_from_cstr buf = Some s <->
  (NUL ∉ chars s) /\ (exists rest, buf = (chars s ++ NUL :: rest)%list).
Proof.
  revert s. induction buf as [|c buf IH]; intros s; simpl.
  - split; [discriminate|]. intros [_ [rest H]].
    destruct (chars s); discriminate.
  - destruct (Ascii.eqb_spec c NUL) as [->|Hc].
    + split.
      * intros [= <-]. split; [apply not_elem_of_nil|]. by exists buf.
      * intros [Hn [rest H]]. destruct s as [|a s]; [done|].
        simpl in H. injection H as <- _. exfalso. apply Hn. simpl. left.
    + destruct (string_from_cstr buf) as [t|] eqn:E; simpl.
      * split.
        -- intros [= <-]. destruct (proj1 (IH t) eq_refl) as [Hn [rest ->]].
           split; [|by exists rest]. simpl.
           apply not_elem_of_cons. split; [congruence | exact Hn].
        -- intros [Hn [rest H]]. destruct s as [|a s]; simpl in H.
           ++ injection H as -> _. done.
           ++ injection H as <- H. f_equal. f_equal.
              simpl in Hn. apply not_elem_of_cons in Hn as [_ Hn].
              assert (Some t = Some s) as [= ->]; [|done].
              apply IH. split; [exact Hn | by exists rest].
      * split; [discriminate|]. intros [Hn [rest H]].
        destruct s as [|a s]; simpl in H.
        -- injection H as -> _. done.
        -- injection H as <- H. simpl in Hn.
           apply not_elem_of_cons in Hn as [_ Hn].
           assert (None = Some s) as Hbad; [|discriminate Hbad].
           apply IH. split; [exact Hn | by exists rest].
Qed.


(** [Failed()] holds of the results built from an error code and
    [Succeeded()] of those built by [MakeResult]. *)
Lemma Failed_Failure {T} (r : ResultVal T) :
  Failed r = true <-> exists e, r = Failure e.
Proof.
  destruct r as [v|e]; simpl.
  - split; [discriminate | intros [e [=]]].
  - split; [by exists e | reflexivity].
Qed.

Lemma Succeeded_MakeResult {T} (r : ResultVal T) :
  Succeeded r = true <-> exists v, r = MakeResult v.
Proof.
  destruct r as [v|e]; simpl.
  - split; [by exists v | reflexivity].
  - split; [discriminate | intros [v [=]]].
Qed.

Section RegistryTheory.

Context `{KP : KernelPorts}.

Implicit Types (w : World) (sm : ServiceManager) (name : string).

Abbreviation registered w := (registered_services (service_manager w)).

(** *** Lookup and registration, case by case *)

Lemma GetServicePort_invalid name sm e :
  ValidateServiceName name = RESULT_ERROR e ->
  GetServicePort name sm = Failure e.
Proof. intros H. unfold GetServicePort. by rewrite H. Qed.

Lemma GetServicePort_valid name sm :
  ValidateServiceName name = RESULT_SUCCESS ->
  GetServicePort name sm =
    match registered_services sm !! name with
    | Some client_port => MakeResult client_port
    | None => Failure ERR_SERVICE_NOT_REGISTERED
    end.
Proof.
  intros H. unfold GetServicePort. rewrite H.
  by destruct (registered_services sm !! name).
Qed.

Lemma GetServicePort_MakeResult name sm client_port :
  GetServicePort name sm = MakeResult client_port <->
  ValidateServiceName name = RESULT_SUCCESS /\
  registered_services sm !! name = Some client_port.
Proof.
  unfold GetServicePort. destruct (ValidateServiceName name).
  - destruct (registered_services sm !! name); split;
      (intros [= ->] || intros [_ [= ->]] || intros [_ [=]]); done.
  - split; [discriminate | intros [[=] _]].
Qed.

Lemma RegisterService_invalid name max w e :
  ValidateServiceName name = RESULT_ERROR e ->
  RegisterService name max w = (Failure e, w).
Proof. intros H. unfold RegisterService. by rewrite H. Qed.

Lemma RegisterService_present name max w client_port :
  ValidateServiceName name = RESULT_SUCCESS ->
  registered w !! name = Some client_port ->
  RegisterService name max w = (Failure ERR_ALREADY_REGISTERED, w).
Proof. intros Hv Hl. unfold RegisterService. by rewrite Hv, Hl. Qed.

Lemma RegisterService_absent name max w :
  ValidateServiceName name = RESULT_SUCCESS ->
  registered w !! name = None ->
  let pair := CreatePortPair max name (kernel w) in
  RegisterService name max w =
    (MakeResult (fst (fst pair)),
     {| service_manager :=
          {| registered_services := <[name := snd (fst pair)]> (registered w);
             sm_interface := sm_interface (service_manager w);
             controller_interface := controller_interface (service_manager w) |};
        kernel := snd pair |}).
Proof.
  intros Hv Hl. unfold RegisterService, emplace. rewrite Hv, Hl.
  by destruct (CreatePortPair max name (kernel w)) as [[sp cp] k].
Qed.

(** *** Name validation (C4) *)

(** C4 (as amended).  Name validation maps the empty name and every name
    longer than 8 bytes to [ERR_INVALID_NAME_SIZE], every name of 1 to 8
    bytes that contains a terminator to [ERR_NAME_CONTAINS_NUL], and
    accepts every 8-byte name without a terminator; [RegisterService] and
    [GetServicePort] both return the validation error, leaving the world
    as it was, whenever validation fails.  The size test comes first, so a
    name longer than 8 bytes is reported by its size even when it contains
    a terminator. *)
Theorem ValidateServiceName_table name :
  (name = "" -> ValidateServiceName name = RESULT_ERROR ERR_INVALID_NAME_SIZE) /\
  ((8 < String.length name)%nat ->
   ValidateServiceName name = RESULT_ERROR ERR_INVALID_NAME_SIZE) /\
  ((1 <= String.length name <= 8)%nat -> NUL ∈ chars name ->
   ValidateServiceName name = RESULT_ERROR ERR_NAME_CONTAINS_NUL) /\
  (String.length name = 8%nat -> NUL ∉ chars name ->
   ValidateServiceName name = RESULT_SUCCESS) /\
  (forall e max w,
     ValidateServiceName name = RESULT_ERROR e ->
     RegisterService name max w = (Failure e, w) /\
     GetServicePort name (service_manager w) = Failure e).
Proof.
  repeat split.
  - intros ->. reflexivity.
  - intros H. apply ValidateServiceName_size. lia.
  - apply ValidateServiceName_nul.
  - intros Hlen Hn. apply ValidateServiceName_success. split; [lia | exact Hn].
  - by apply RegisterService_invalid.
  - by apply GetServicePort_invalid.
Qed.

(** *** Registration and resolution (C2, C3, C5, C8) *)

(** C2.  For a valid name (1 to 8 bytes, no terminator) that is not yet
    registered, [RegisterService] performs one [CreatePortPair] call,
    returns its server port, and a following [GetServicePort] returns the
    client port of that same pair. *)
Theorem register_then_resolve name max w server_port client_port k :
  (1 <= String.length name <= 8)%nat ->
  NUL ∉ chars name ->
  registered w !! name = None ->
  CreatePortPair max name (kernel w) = ((server_port, client_port), k) ->
  exists w1,
    RegisterService name max w = (MakeResult server_port, w1) /\
    kernel w1 = k /\
    GetServicePort name (service_manager w1) = MakeResult client_port.
Proof.
  intros Hlen Hnul Habs Hpair.
  assert (ValidateServiceName name = RESULT_SUCCESS) as Hv
    by (by apply ValidateServiceName_success).
  pose proof (RegisterService_absent name max w Hv Habs) as Hreg.
  rewrite Hpair in Hreg. simpl in Hreg.
  eexists. split; [exact Hreg|]. split; [reflexivity|].
  apply GetServicePort_MakeResult. split; [exact Hv|].
  simpl. apply lookup_insert_eq.
Qed.

Lemma RegisterService_MakeResult name max w server_port w1 :
  RegisterService name max w = (MakeResult server_port, w1) ->
  ValidateServiceName name = RESULT_SUCCESS /\
  registered w !! name = None /\
  registered w1 !! name = Some (snd (fst (CreatePortPair max name (kernel w)))).
Proof.
  unfold RegisterService, emplace.
  destruct (ValidateServiceName name); [|discriminate].
  destruct (registered w !! name) eqn:El; [discriminate|].
  destruct (CreatePortPair max name (kernel w)) as [[sp cp] k].
  intros [= <- <-]. simpl. repeat split. apply lookup_insert_eq.
Qed.

Lemma ConnectToService_Failure name w e :
  GetServicePort name (service_manager w) = Failure e ->
  ConnectToService name w = (Failure e, w).
Proof. intros H. unfold ConnectToService. by rewrite H. Qed.

Lemma ConnectToService_MakeResult name w client_port :
  GetServicePort name (service_manager w) = MakeResult client_port ->
  ConnectToService name w =
    (fst (Connect client_port (kernel w)),
     with_kernel w (snd (Connect client_port (kernel w)))).
Proof.
  intros H. unfold ConnectToService. rewrite H.
  by destruct (Connect client_port (kernel w)).
Qed.

(** C8.  [ConnectToService] is [GetServicePort] followed by [Connect] on
    the resolved port: it equals the composition [connect_spec] on every
    name and world; a failed resolution is returned as it is, and after a
    successful one the result is exactly that of the port's [Connect]. *)
Theorem ConnectToService_composition name w :
  ConnectToService name w = connect_spec name w /\
  (forall e,
     GetServicePort name (service_manager w) = Failure e ->
     ConnectToService name w = (Failure e, w)) /\
  (forall client_port,
     GetServicePort name (service_manager w) = MakeResult client_port ->
     ConnectToService name w =
       (fst (Connect client_port (kernel w)),
        with_kernel w (snd (Connect client_port (kernel w))))).
Proof.
  split; [|split].
  - unfold ConnectToService, connect_spec, bind, resolve, connect_port.
    by destruct (GetServicePort name (service_manager w)).
  - intros e. apply ConnectToService_Failure.
  - intros p. apply ConnectToService_MakeResult.
Qed.

(** *** What one operation does to the registry *)

(** Exposes the decoded name and the branches of [GetService]. *)
Ltac unfold_GetService :=
  unfold GetService, GetService_name_buf, Pop_u32, PopRaw, MakeParser;
  cbv beta iota zeta; cbn [fst].

Lemma GetService_service_manager ctx w rb w1 :
  GetService ctx w = Done (rb, w1) -> service_manager w1 = service_manager w.
Proof.
  unfold_GetService.
  destruct (string_from_cstr _) as [name|]; [|discriminate].
  destruct (GetServicePort name (service_manager w)) as [port|e].
  - destruct (Connect port (kernel w)) as [[s|e] k].
    + by intros [= <- <-].
    + case_bool_decide; by intros [= <- <-].
  - by intros [= <- <-].
Qed.

Lemma SM_InvokeRequest_service_manager cmd ctx w reply w1 :
  SM_InvokeRequest cmd ctx w = Done (reply, w1) ->
  service_manager w1 = service_manager w.
Proof.
  unfold SM_InvokeRequest.
  destruct (find_handler functions cmd) as [[|]|].
  - by intros [= <- <-].
  - destruct (GetService ctx w) as [[rb w2]| |] eqn:E; try discriminate.
    intros [= <- <-]. by eapply GetService_service_manager.
  - by intros [= <- <-].
Qed.

Lemma ConnectToService_service_manager name w :
  service_manager (snd (ConnectToService name w)) = service_manager w.
Proof.
  unfold ConnectToService.
  destruct (GetServicePort name (service_manager w)) as [port|e]; [|done].
  by destruct (Connect port (kernel w)).
Qed.

(** An operation that returns either leaves the entry of a name alone or
    is the successful registration of that name, which was absent. *)
Lemma step_registered op w w' name :
  step op w = Done w' ->
  registered w' !! name = registered w !! name \/
  (exists max,
     op = OpRegisterService name max /\
     ValidateServiceName name = RESULT_SUCCESS /\
     registered w !! name = None /\
     registered w' !! name
       = Some (snd (fst (CreatePortPair max name (kernel w))))).
Proof.
  destruct op as [|n max|n|n|ctx|cmd ctx]; cbn [step].
  - unfold InstallInterfaces.
    destruct (expired _); [|discriminate]. intros [= <-]. by left.
  - intros [= <-]. unfold RegisterService, emplace.
    destruct (ValidateServiceName n) eqn:Ev; [|by left].
    destruct (registered w !! n) eqn:El; [by left|].
    destruct (decide (n = name)) as [->|Hne].
    + right. exists max. repeat split; try done.
      destruct (CreatePortPair max name (kernel w)) as [[sp cp] k]. simpl.
      apply lookup_insert_eq.
    + left. destruct (CreatePortPair max n (kernel w)) as [[sp cp] k]. simpl.
      by apply lookup_insert_ne.
  - intros [= <-]. by left.
  - intros [= <-]. left. by rewrite ConnectToService_service_manager.
  - unfold InvokeControlRequest.
    destruct (controller_interface _); [|discriminate]. intros [= <-]. by left.
  - destruct (SM_InvokeRequest cmd ctx w) as [[reply w1]| |] eqn:E;
      try discriminate.
    intros [= <-]. left. by rewrite (SM_InvokeRequest_service_manager _ _ _ _ _ E).
Qed.

Lemma step_sm_interface op w w' :
  step op w = Done w' ->
  expired (sm_interface (service_manager w)) = false ->
  expired (sm_interface (service_manager w')) = false.
Proof.
  destruct op as [|n max|n|n|ctx|cmd ctx]; cbn [step].
  - unfold InstallInterfaces. intros H He. rewrite He in H. discriminate.
  - intros [= <-]. unfold RegisterService.
    destruct (ValidateServiceName n); [|done].
    destruct (registered w !! n); [done|].
    by destruct (CreatePortPair max n (kernel w)) as [[sp cp] k].
  - by intros [= <-].
  - intros [= <-]. by rewrite ConnectToService_service_manager.
  - unfold InvokeControlRequest.
    destruct (controller_interface _); [|discriminate]. by intros [= <-].
  - destruct (SM_InvokeRequest cmd ctx w) as [[reply w1]| |] eqn:E;
      try discriminate.
    intros [= <-]. by rewrite (SM_InvokeRequest_service_manager _ _ _ _ _ E).
Qed.

(** *** Runs *)

Lemma run_cons op ops w w' :
  run (op :: ops) w = Done w' ->
  exists w1, step op w = Done w1 /\ run ops w1 = Done w'.
Proof.
  simpl. destruct (step op w) as [w1| |]; try discriminate. eauto.
Qed.

Lemma run_registered_persist ops w w' name client_port :
  run ops w = Done w' ->
  registered w !! name = Some client_port ->
  registered w' !! name = Some client_port.
Proof.
  revert w. induction ops as [|op ops IH]; intros w Hrun Hl.
  - by injection Hrun as <-.
  - apply run_cons in Hrun as (w1 & Hstep & Hrun).
    apply (IH w1 Hrun).
    destruct (step_registered _ _ _ name Hstep) as [->|(max & _ & _ & Hn & _)];
      congruence.
Qed.

Lemma run_keys_valid ops w w' :
  run ops w = Done w' ->
  (forall name client_port,
     registered w !! name = Some client_port ->
     ValidateServiceName name = RESULT_SUCCESS) ->
  forall name client_port,
    registered w' !! name = Some client_port ->
    ValidateServiceName name = RESULT_SUCCESS.
Proof.
  revert w. induction ops as [|op ops IH]; intros w Hrun Hinv.
  - by injection Hrun as <-.
  - apply run_cons in Hrun as (w1 & Hstep & Hrun).
    apply (IH w1 Hrun). intros name p Hl.
    destruct (step_registered _ _ _ name Hstep) as [Heq|(max & _ & Hv & _)];
      [|exact Hv].
    rewrite Heq in Hl. by eapply Hinv.
Qed.

Lemma run_never_registered ops w w' name :
  run ops w = Done w' ->
  registered w !! name = None ->
  (forall max, OpRegisterService name max ∉ ops) ->
  registered w' !! name = None.
Proof.
  revert w. induction ops as [|op ops IH]; intros w Hrun Hl Hops.
  - by injection Hrun as <-.
  - apply run_cons in Hrun as (w1 & Hstep & Hrun).
    apply (IH w1 Hrun).
    + destruct (step_registered _ _ _ name Hstep) as [->|(max & -> & _)];
        [exact Hl|].
      exfalso. apply (Hops max). apply list_elem_of_here.
    + intros max Hin. apply (Hops max). by apply list_elem_of_further.
Qed.

Lemma run_sm_interface ops w w' :
  run ops w = Done w' ->
  expired (sm_interface (service_manager w)) = false ->
  expired (sm_interface (service_manager w')) = false.
Proof.
  revert w. induction ops as [|op ops IH]; intros w Hrun He.
  - by injection Hrun as <-.
  - apply run_cons in Hrun as (w1 & Hstep & Hrun).
    apply (IH w1 Hrun). by eapply step_sm_interface.
Qed.

(** C3.  After a successful [RegisterService] of a name, and whatever
    operations of the registry ran since, registering the same name again
    fails with [ERR_ALREADY_REGISTERED] and returns the world untouched:
    the map is as it was, the kernel saw no [CreatePortPair], and the first
    entry still resolves. *)
Theorem register_twice name max max' w server_port w1 ops w2 :
  RegisterService name max w = (MakeResult server_port, w1) ->
  run ops w1 = Done w2 ->
  RegisterService name max' w2 = (Failure ERR_ALREADY_REGISTERED, w2) /\
  exists client_port,
    registered w1 !! name = Some client_port /\
    GetServicePort name (service_manager (snd (RegisterService name max' w2)))
      = MakeResult client_port.
Proof.
  intros H Hrun. apply RegisterService_MakeResult in H as (Hv & _ & Hl).
  pose proof (run_registered_persist _ _ _ _ _ Hrun Hl) as Hl2.
  pose proof (RegisterService_present name max' w2 _ Hv Hl2) as H2.
  split; [exact H2|]. eexists. split; [exact Hl|].
  rewrite H2. simpl. apply GetServicePort_MakeResult. by split.
Qed.

(** C5 (as amended).  For every name that passes validation (1 to 8
    bytes, no terminator) and is absent from the map, in particular one
    that was never registered since the registry was created,
    [GetServicePort] and [ConnectToService] both return
    [ERR_SERVICE_NOT_REGISTERED].  A name that fails validation gets its
    validation error from both instead, registered or not: the size error
    for the empty name and for names over 8 bytes, the terminator error
    for names of 1 to 8 bytes that contain a terminator. *)
Theorem unregistered_name_not_registered name :
  ((1 <= String.length name <= 8)%nat ->
   NUL ∉ chars name ->
   (forall w,
      registered w !! name = None ->
      GetServicePort name (service_manager w) = Failure ERR_SERVICE_NOT_REGISTERED /\
      ConnectToService name w = (Failure ERR_SERVICE_NOT_REGISTERED, w)) /\
   (forall k ops w,
      run ops (fresh k) = Done w ->
      (forall max, OpRegisterService name max ∉ ops) ->
      GetServicePort name (service_manager w) = Failure ERR_SERVICE_NOT_REGISTERED /\
      ConnectToService name w = (Failure ERR_SERVICE_NOT_REGISTERED, w))) /\
  ((String.length name = 0 \/ 8 < String.length name)%nat ->
   forall w,
     GetServicePort name (service_manager w) = Failure ERR_INVALID_NAME_SIZE /\
     ConnectToService name w = (Failure ERR_INVALID_NAME_SIZE, w)) /\
  ((1 <= String.length name <= 8)%nat ->
   NUL ∈ chars name ->
   forall w,
     GetServicePort name (service_manager w) = Failure ERR_NAME_CONTAINS_NUL /\
     ConnectToService name w = (Failure ERR_NAME_CONTAINS_NUL, w)) /\
  (forall e w,
     ValidateServiceName name = RESULT_ERROR e ->
     GetServicePort name (service_manager w) = Failure e /\
     ConnectToService name w = (Failure e, w)).
Proof.
  assert (forall e w,
     ValidateServiceName name = RESULT_ERROR e ->
     GetServicePort name (service_manager w) = Failure e /\
     ConnectToService name w = (Failure e, w)) as Hinvalid.
  { intros e w Hv.
    pose proof (GetServicePort_invalid name (service_manager w) e Hv) as Hg.
    split; [exact Hg | by apply ConnectToService_Failure]. }
  split; [|split; [|split]].
  - intros Hlen Hnul.
    assert (ValidateServiceName name = RESULT_SUCCESS) as Hv
      by (by apply ValidateServiceName_success).
    assert (forall w, registered w !! name = None ->
       GetServicePort name (service_manager w) = Failure ERR_SERVICE_NOT_REGISTERED /\
       ConnectToService name w = (Failure ERR_SERVICE_NOT_REGISTERED, w)) as Habs.
    { intros w Hl.
      assert (GetServicePort name (service_manager w)
              = Failure ERR_SERVICE_NOT_REGISTERED) as Hg
        by (by rewrite GetServicePort_valid, Hl).
      split; [exact Hg | by apply ConnectToService_Failure]. }
    split; [exact Habs|].
    intros k ops w Hrun Hops. apply Habs.
    eapply run_never_registered; [exact Hrun | apply lookup_empty | exact Hops].
  - intros Hsz w. apply Hinvalid. by apply ValidateServiceName_size.
  - intros Hlen Hin w. apply Hinvalid. by apply ValidateServiceName_nul.
  - exact Hinvalid.
Qed.

(** *** The registry map over its lifetime (C9) *)

(** C9.  At any point of a run that started from a new registry, the map
    holds at most one entry per name, and every entry present then is
    still there, bound to the same client port and resolvable, after any
    further operations: nothing removes or replaces an entry. *)
Theorem registered_entries_persist k ops1 w ops2 w' :
  run ops1 (fresh k) = Done w ->
  run ops2 w = Done w' ->
  NoDup (map_to_list (registered w')).*1 /\
  forall name client_port,
    registered w !! name = Some client_port ->
    registered w' !! name = Some client_port /\
    GetServicePort name (service_manager w') = MakeResult client_port.
Proof.
  intros Hrun1 Hrun2. split; [apply NoDup_fst_map_to_list|].
  intros name p Hl.
  pose proof (run_registered_persist _ _ _ _ _ Hrun2 Hl) as Hl'.
  split; [exact Hl'|].
  apply GetServicePort_MakeResult. split; [|exact Hl'].
  eapply (run_keys_valid _ _ _ Hrun1); [|exact Hl].
  intros n q Hq. simpl in Hq. by rewrite lookup_empty in Hq.
Qed.

(** *** Bring-up (C7) *)

(** C7.  Once [InstallInterfaces] has returned on a registry, calling it
    again on that registry, immediately or after any further operations,
    fails its assertion: it never completes a second time. *)
Theorem InstallInterfaces_twice w w1 ops w2 :
  InstallInterfaces w = Done w1 ->
  run ops w1 = Done w2 ->
  InstallInterfaces w2 = AssertionFailed.
Proof.
  intros H1 Hrun.
  assert (expired (sm_interface (service_manager w1)) = false) as He.
  { unfold InstallInterfaces in H1.
    destruct (expired _); [|discriminate]. by injection H1 as <-. }
  pose proof (run_sm_interface _ _ _ Hrun He) as He2.
  unfold InstallInterfaces. by rewrite He2.
Qed.

(** *** The dispatcher (C6, C1, C10) *)

(** C6.  Command 0 is bound to [Initialize], and on every request and in
    every world its reply is the single word [RESULT_SUCCESS] with no
    object attached, the world being returned as it was. *)
Theorem Initialize_succeeds ctx w :
  find_handler functions 0 = Some SM_Initialize /\
  Initialize ctx w =
    ({| normal_params_size := 1; num_handles_to_copy := 0;
        num_objects_to_move := 0;
        params := [RESULT_SUCCESS]; objects := [] |}, w) /\
  SM_InvokeRequest 0 ctx w =
    Done (Some {| normal_params_size := 1; num_handles_to_copy := 0;
                  num_objects_to_move := 0;
                  params := [RESULT_SUCCESS]; objects := [] |}, w).
Proof. repeat split. Qed.


(** Every reply of [GetService], by the path that produced it. *)
Lemma GetService_Done ctx w rb w1 :
  GetService ctx w = Done (rb, w1) ->
  exists name, string_from_cstr (GetService_name_buf ctx) = Some name /\
  ((exists e, GetServicePort name (service_manager w) = Failure e /\
      w1 = w /\ params rb = [RESULT_ERROR e] /\ objects rb = []) \/
   (exists port r k,
      GetServicePort name (service_manager w) = MakeResult port /\
      Connect port (kernel w) = (r, k) /\ w1 = with_kernel w k /\
      match r with
      | MakeResult s =>
          params rb = [RESULT_SUCCESS] /\ objects rb = [ObjClientSession s]
      | Failure e =>
          params rb = [RESULT_ERROR e] /\
          objects rb = if decide (e = Kernel_ERR_MAX_CONNECTIONS_REACHED)
                       then [ObjClientPort port] else []
      end)).
Proof.
  unfold_GetService.
  destruct (string_from_cstr _) as [name|]; [|discriminate].
  intros H. exists name. split; [reflexivity|].
  destruct (GetServicePort name (service_manager w)) as [port|e].
  - right. destruct (Connect port (kernel w)) as [r k] eqn:Ec.
    exists port, r, k. split; [reflexivity|]. split; [exact Ec|].
    destruct r as [s|e].
    + injection H as <- <-. by repeat split.
    + case_bool_decide as Hc; injection H as <- <-.
      * injection Hc as ->. split; [reflexivity|]. by repeat split.
      * split; [reflexivity|]. split; [reflexivity|].
        destruct (decide (e = Kernel_ERR_MAX_CONNECTIONS_REACHED)) as [->|];
          [by exfalso; apply Hc | reflexivity].
  - left. exists e. by injection H as <- <-.
Qed.

(** C1.  When the name of a [GetService] request resolves to a registered
    port and connecting to it fails with the capacity-exceeded code, the
    reply carries exactly that code and exactly one object, the client
    port stored in the registry under that name (not a session).  No
    reply that carries any other error code has an object attached. *)
Theorem GetService_capacity_exceeded ctx w :
  (forall name port e k,
     string_from_cstr (GetService_name_buf ctx) = Some name ->
     GetServicePort name (service_manager w) = MakeResult port ->
     Connect port (kernel w) = (Failure e, k) ->
     e = Kernel_ERR_MAX_CONNECTIONS_REACHED ->
     exists rb,
       GetService ctx w = Done (rb, with_kernel w k) /\
       params rb = [RESULT_ERROR e] /\
       objects rb = [ObjClientPort port] /\
       registered w !! name = Some port) /\
  (forall rb w1 e,
     GetService ctx w = Done (rb, w1) ->
     params rb = [RESULT_ERROR e] ->
     e <> ERR_MAX_CONNECTIONS_REACHED ->
     objects rb = []).
Proof.
  split.
  - intros name port e k Hname Hport Hconn ->.
    apply GetServicePort_MakeResult in Hport as Hreg. destruct Hreg as [_ Hreg].
    revert Hname.
    unfold_GetService. intros ->.
    rewrite Hport, Hconn. rewrite bool_decide_eq_true_2 by reflexivity.
    eexists. split; [reflexivity|]. by repeat split.
  - intros rb w1 e H Hp Hne.
    apply GetService_Done in H as (name & _ & [(e' & _ & _ & _ & Ho)|H]);
      [exact Ho|].
    destruct H as (port & r & k & _ & _ & _ & H).
    destruct r as [s|e'].
    + destruct H as [Hp' _]. rewrite Hp in Hp'. discriminate.
    + destruct H as [Hp' ->]. rewrite Hp in Hp'. injection Hp' as <-.
      by destruct (decide (e = Kernel_ERR_MAX_CONNECTIONS_REACHED)).
Qed.


(** ** Further properties of the registry and the dispatcher *)

Lemma chars_length (s : string) : length (chars s) = String.length s.
Proof. induction s as [|a s IH]; simpl; [reflexivity | by rewrite IH]. Qed.

(** *** Validation and lookup, outcome by outcome *)

(** X1.  [ValidateServiceName] has three outcomes and each is decided by
    the length and the bytes of the name alone: the size error exactly for
    the empty name and names over 8 bytes, the terminator error exactly for
    names of 1 to 8 bytes that contain a terminator, success exactly for
    names of 1 to 8 bytes without one. *)
Theorem ValidateServiceName_classification name :
  (ValidateServiceName name = RESULT_ERROR ERR_INVALID_NAME_SIZE <->
   (String.length name = 0 \/ 8 < String.length name)%nat) /\
  (ValidateServiceName name = RESULT_ERROR ERR_NAME_CONTAINS_NUL <->
   (1 <= String.length name <= 8)%nat /\ NUL ∈ chars name) /\
  (ValidateServiceName name = RESULT_SUCCESS <->
   (1 <= String.length name <= 8)%nat /\ NUL ∉ chars name) /\
  (ValidateServiceName name = RESULT_ERROR ERR_INVALID_NAME_SIZE \/
   ValidateServiceName name = RESULT_ERROR ERR_NAME_CONTAINS_NUL \/
   ValidateServiceName name = RESULT_SUCCESS).
Proof.
  destruct (decide (String.length name = 0 \/ 8 < String.length name)%nat)
    as [Hsz|Hsz].
  - rewrite (ValidateServiceName_size name Hsz).
    split; [|split; [|split]].
    + tauto.
    + split; [discriminate | intros [Hl _]; lia].
    + split; [discriminate | intros [Hl _]; lia].
    + by left.
  - destruct (decide (NUL ∈ chars name)) as [Hin|Hin].
    + rewrite (ValidateServiceName_nul name) by (lia || done).
      split; [|split; [|split]].
      * split; [discriminate | tauto].
      * split; [intros _; split; [lia | exact Hin] | reflexivity].
      * split; [discriminate | intros [_ Hn]; done].
      * right. by left.
    + rewrite (proj2 (ValidateServiceName_success name)) by (split; [lia|done]).
      split; [|split; [|split]].
      * split; [discriminate | tauto].
      * split; [discriminate | intros [_ Hn]; done].
      * split; [intros _; split; [lia | exact Hin] | reflexivity].
      * right. by right.
Qed.

(** X2.  [GetServicePort] answers the size error, the terminator error,
    the not-registered error or a port, and nothing else; the
    not-registered error exactly for a valid name absent from the map and a
    port exactly for a valid name bound to it. *)
Theorem GetServicePort_outcomes name sm :
  (forall e,
     GetServicePort name sm = Failure e ->
     e = ERR_INVALID_NAME_SIZE \/ e = ERR_NAME_CONTAINS_NUL \/
     e = ERR_SERVICE_NOT_REGISTERED) /\
  (GetServicePort name sm = Failure ERR_SERVICE_NOT_REGISTERED <->
   ((1 <= String.length name <= 8)%nat /\ NUL ∉ chars name) /\
   registered_services sm !! name = None) /\
  (forall client_port,
     GetServicePort name sm = MakeResult client_port <->
     ((1 <= String.length name <= 8)%nat /\ NUL ∉ chars name) /\
     registered_services sm !! name = Some client_port) /\
  (forall e,
     e <> ERR_SERVICE_NOT_REGISTERED ->
     (GetServicePort name sm = Failure e <->
      ValidateServiceName name = RESULT_ERROR e)).
Proof.
  pose proof (ValidateServiceName_success name) as Hvalid.
  unfold GetServicePort.
  destruct (ValidateServiceName name) as [|e0] eqn:Ev.
  - assert ((1 <= String.length name <= 8)%nat /\ NUL ∉ chars name) as Hv
      by (by apply Hvalid).
    destruct (registered_services sm !! name) as [p|].
    + split; [discriminate|]. split; [split; [discriminate | intros [_ [=]]]|].
      split.
      * intros q. split; [intros [= ->]; by split | intros [_ [= ->]]; done].
      * intros e _. split; discriminate.
    + split; [intros e [= <-]; tauto|]. split; [by split|]. split.
      * intros q. split; [discriminate | intros [_ [=]]].
      * intros e Hne. split; [intros [= <-]; done | discriminate].
  - assert (~ ((1 <= String.length name <= 8)%nat /\ NUL ∉ chars name)) as Hv.
    { intros H. apply Hvalid in H. discriminate. }
    assert (e0 = ERR_INVALID_NAME_SIZE \/ e0 = ERR_NAME_CONTAINS_NUL) as He0.
    { unfold ValidateServiceName in Ev.
      destruct (_ || _)%bool; [left; congruence|].
      case_bool_decide; [right; congruence | discriminate]. }
    split; [intros e [= <-]; tauto|]. split; [|split].
    + split; [intros [= ->]; destruct He0; discriminate | tauto].
    + intros q. split; [discriminate | tauto].
    + intros e _. split; congruence.
Qed.

(** *** Registration *)

(** X3.  A failed [RegisterService] changes nothing, neither the map nor
    the kernel, and its error is the validation error of the name or, for
    a valid name already in the map, [ERR_ALREADY_REGISTERED]. *)
Theorem RegisterService_failure name max w e w1 :
  RegisterService name max w = (Failure e, w1) ->
  w1 = w /\
  (ValidateServiceName name = RESULT_ERROR e \/
   (e = ERR_ALREADY_REGISTERED /\
    ValidateServiceName name = RESULT_SUCCESS /\
    is_Some (registered w !! name))).
Proof.
  unfold RegisterService.
  destruct (ValidateServiceName name) as [|e0].
  - destruct (registered w !! name) as [p|] eqn:El.
    + intros [= <- <-]. split; [reflexivity|]. right. eauto.
    + destruct (CreatePortPair max name (kernel w)) as [[sp cp] k].
      discriminate.
  - intros [= <- <-]. split; [reflexivity | by left].
Qed.

(** X4.  [RegisterService] succeeds exactly on a valid name that is absent
    from the map. *)
Theorem RegisterService_succeeds_iff name max w :
  (exists server_port w1,
     RegisterService name max w = (MakeResult server_port, w1)) <->
  ((1 <= String.length name <= 8)%nat /\ NUL ∉ chars name) /\
  registered w !! name = None.
Proof.
  split.
  - intros (sp & w1 & H). apply RegisterService_MakeResult in H as (Hv & Hl & _).
    split; [by apply ValidateServiceName_success | exact Hl].
  - intros [Hv Hl]. apply ValidateServiceName_success in Hv.
    pose proof (RegisterService_absent name max w Hv Hl) as H. eauto.
Qed.

(** X5.  Whatever its outcome, [RegisterService] of one name leaves every
    other name as it was: its entry, and what [GetServicePort] answers for
    it; the dispatcher and controller pointers are kept too. *)
Theorem RegisterService_frame name max w other :
  other <> name ->
  registered (snd (RegisterService name max w)) !! other = registered w !! other /\
  GetServicePort other (service_manager (snd (RegisterService name max w)))
    = GetServicePort other (service_manager w) /\
  sm_interface (service_manager (snd (RegisterService name max w)))
    = sm_interface (service_manager w) /\
  controller_interface (service_manager (snd (RegisterService name max w)))
    = controller_interface (service_manager w).
Proof.
  intros Hne.
  assert (registered (snd (RegisterService name max w)) !! other
          = registered w !! other) as Hl.
  { unfold RegisterService, emplace.
    destruct (ValidateServiceName name); [|done].
    destruct (registered w !! name); [done|].
    destruct (CreatePortPair max name (kernel w)) as [[sp cp] k]. simpl.
    by apply lookup_insert_ne. }
  split; [exact Hl|]. split.
  - unfold GetServicePort. by rewrite Hl.
  - unfold RegisterService.
    destruct (ValidateServiceName name); [|done].
    destruct (registered w !! name); [done|].
    by destruct (CreatePortPair max name (kernel w)) as [[sp cp] k].
Qed.

(** X6.  A successful [RegisterService] adds exactly one entry: the map
    grows by one and its names are the old ones and the new name. *)
Theorem RegisterService_size name max w server_port w1 :
  RegisterService name max w = (MakeResult server_port, w1) ->
  size (registered w1) = S (size (registered w)) /\
  dom (registered w1) = {[name]} ∪ dom (registered w).
Proof.
  intros H. pose proof H as H0.
  apply RegisterService_MakeResult in H0 as (Hv & Hl & _).
  rewrite (RegisterService_absent name max w Hv Hl) in H.
  injection H as _ <-. simpl. split.
  - by apply map_size_insert_None.
  - apply dom_insert_L.
Qed.

(** X7.  Registering a valid absent name and then connecting to it by name
    gives exactly what [Connect] gives on the client port of the pair that
    the registration created, in the kernel that the creation left. *)
Theorem register_then_connect name max w server_port client_port k :
  (1 <= String.length name <= 8)%nat ->
  NUL ∉ chars name ->
  registered w !! name = None ->
  CreatePortPair max name (kernel w) = ((server_port, client_port), k) ->
  ConnectToService name (snd (RegisterService name max w)) =
    (fst (Connect client_port k),
     with_kernel (snd (RegisterService name max w)) (snd (Connect client_port k))).
Proof.
  intros Hlen Hnul Habs Hpair.
  assert (ValidateServiceName name = RESULT_SUCCESS) as Hv
    by (by apply ValidateServiceName_success).
  rewrite (RegisterService_absent name max w Hv Habs), Hpair. simpl.
  rewrite (ConnectToService_MakeResult name _ client_port); [reflexivity|].
  apply GetServicePort_MakeResult. split; [exact Hv|].
  simpl. apply lookup_insert_eq.
Qed.

(** *** Replies of [GetService] *)

(** X8.  Every reply of [GetService] is well formed: it was declared with
    one parameter word, no handle to copy and as many objects to move as
    were then attached, it holds exactly one result-code word, and at most
    one object. *)
Theorem GetService_reply_shape ctx w rb w1 :
  GetService ctx w = Done (rb, w1) ->
  normal_params_size rb = 1%nat /\
  length (params rb) = 1%nat /\
  num_handles_to_copy rb = 0%nat /\
  num_objects_to_move rb = length (objects rb) /\
  (length (objects rb) <= 1)%nat.
Proof.
  unfold_GetService.
  destruct (string_from_cstr _) as [name|]; [|discriminate].
  destruct (GetServicePort name (service_manager w)) as [port|e].
  - destruct (Connect port (kernel w)) as [[s|e] k].
    + intros [= <- <-]. simpl. repeat split; lia.
    + case_bool_decide; intros [= <- <-]; simpl; repeat split; lia.
  - intros [= <- <-]. simpl. repeat split; lia.
Qed.

(** X9.  When the decoded name does not resolve, [GetService] replies with
    the error of the lookup and no object, and returns the world as it
    was: no connection is attempted. *)
Theorem GetService_unresolved ctx w name e :
  string_from_cstr (GetService_name_buf ctx) = Some name ->
  GetServicePort name (service_manager w) = Failure e ->
  GetService ctx w = Done (Push (MakeBuilder 1 0 0) (RESULT_ERROR e), w).
Proof.
  intros Hname Hport. revert Hname. unfold_GetService. intros ->.
  by rewrite Hport.
Qed.

(** X10.  The object of a reply tells its result code: a session is
    attached only to a success reply and a port only to a
    capacity-exceeded reply; a success reply always carries exactly the
    session that [Connect] returned. *)
Theorem GetService_object_kind ctx w rb w1 :
  GetService ctx w = Done (rb, w1) ->
  (forall s, ObjClientSession s ∈ objects rb -> params rb = [RESULT_SUCCESS]) /\
  (forall p, ObjClientPort p ∈ objects rb ->
     params rb = [RESULT_ERROR ERR_MAX_CONNECTIONS_REACHED]) /\
  (params rb = [RESULT_SUCCESS] ->
   exists name port s k,
     string_from_cstr (GetService_name_buf ctx) = Some name /\
     GetServicePort name (service_manager w) = MakeResult port /\
     Connect port (kernel w) = (MakeResult s, k) /\
     objects rb = [ObjClientSession s] /\ w1 = with_kernel w k).
Proof.
  intros H.
  apply GetService_Done in H as (name & Hname & [(e & _ & _ & Hp & Ho)|H]).
  - rewrite Hp, Ho. split; [|split].
    + intros s Hin. by apply not_elem_of_nil in Hin.
    + intros p Hin. by apply not_elem_of_nil in Hin.
    + discriminate.
  - destruct H as (port & r & k & Hport & Hconn & -> & H).
    destruct r as [s|e]; destruct H as [Hp Ho]; rewrite Hp, Ho.
    + split; [done|]. split.
      * intros p Hin. apply list_elem_of_singleton in Hin. discriminate.
      * intros _. by exists name, port, s, k.
    + destruct (decide (e = Kernel_ERR_MAX_CONNECTIONS_REACHED)) as [->|Hne].
      * split; [|split; [done | discriminate]].
        intros s Hin. apply list_elem_of_singleton in Hin. discriminate.
      * split; [|split; [|discriminate]].
        -- intros s Hin. by apply not_elem_of_nil in Hin.
        -- intros p Hin. by apply not_elem_of_nil in Hin.
Qed.

(** X11.  [GetService] is [ConnectToService] on the decoded name, put on
    the wire: it always returns, leaves the world that [ConnectToService]
    leaves, and its result-code word is the code of [ConnectToService]'s
    result. *)
Theorem GetService_is_ConnectToService ctx w name :
  string_from_cstr (GetService_name_buf ctx) = Some name ->
  exists rb,
    GetService ctx w = Done (rb, snd (ConnectToService name w)) /\
    params rb = [Code (fst (ConnectToService name w))].
Proof.
  unfold_GetService. intros ->. unfold ConnectToService.
  destruct (GetServicePort name (service_manager w)) as [port|e].
  - destruct (Connect port (kernel w)) as [[s|e] k].
    + eexists. split; reflexivity.
    + case_bool_decide as Hc; (eexists; split; [reflexivity|]); simpl.
      * injection Hc as ->. reflexivity.
      * reflexivity.
  - eexists. split; reflexivity.
Qed.

(** X12.  A name decoded from a request has at most 8 bytes and no
    terminator.  So over the wire validation can fail only for the empty
    name: every other decoded name is valid, and the lookup never answers
    [ERR_NAME_CONTAINS_NUL]. *)
Theorem GetService_decoded_name ctx name :
  string_from_cstr (GetService_name_buf ctx) = Some name ->
  (String.length name <= 8)%nat /\
  (NUL ∉ chars name) /\
  (name <> "" -> ValidateServiceName name = RESULT_SUCCESS) /\
  (forall sm, GetServicePort name sm <> Failure ERR_NAME_CONTAINS_NUL).
Proof.
  intros H. apply string_from_cstr_Some in H as [Hnul [rest Hbuf]].
  assert (String.length name <= 8)%nat as Hlen.
  { assert (length (GetService_name_buf ctx) = 9%nat) as H9 by reflexivity.
    rewrite Hbuf, length_app, chars_length in H9. simpl in H9. lia. }
  split; [exact Hlen|]. split; [exact Hnul|]. split.
  - intros Hne. apply ValidateServiceName_success. split; [|exact Hnul].
    destruct name; [done | simpl in *; lia].
  - intros sm Hf. unfold GetServicePort in Hf.
    destruct (ValidateServiceName name) as [|e0] eqn:Ev.
    + destruct (registered_services sm !! name); discriminate.
    + injection Hf as ->. unfold ValidateServiceName in Ev.
      destruct (_ || _)%bool; [discriminate|].
      case_bool_decide as Hfind; [|discriminate].
      apply Hfind. by apply string_find_None.
Qed.

(** X13.  Decoding undoes termination: the bytes of any string without a
    terminator, followed by a terminator and by anything at all, decode to
    that string. *)
Theorem string_from_cstr_terminated (s : string) (rest : list ascii) :
  NUL ∉ chars s ->
  string_from_cstr (chars s ++ NUL :: rest)%list = Some s.
Proof.
  intros Hnul. apply string_from_cstr_Some. split; [exact Hnul|]. by exists rest.
Qed.

(** X14.  The handler table binds command 0 to [Initialize] and command 1
    to [GetService]; no other command, in particular neither
    [RegisterService] (2) nor [UnregisterService] (3), has a handler. *)
Theorem functions_handlers (cmd : Z) :
  (find_handler functions cmd = Some SM_Initialize <-> cmd = 0%Z) /\
  (find_handler functions cmd = Some SM_GetService <-> cmd = 1%Z) /\
  (find_handler functions cmd = None <-> cmd <> 0%Z /\ cmd <> 1%Z).
Proof.
  unfold functions. cbn [find_handler expected_header handler_callback].
  destruct (Z.eqb_spec 0 cmd) as [<-|H0];
    [|destruct (Z.eqb_spec 1 cmd) as [<-|H1];
      [|destruct (Z.eqb_spec 2 cmd); destruct (Z.eqb_spec 3 cmd)]];
    (split; [|split]);
    (split; intros H; first [discriminate H | reflexivity | lia]).
Qed.

(** *** Runs: what changes the registry, and bring-up *)

Lemma step_service_manager_same op w w' :
  step op w = Done w' ->
  op <> OpInstallInterfaces ->
  (forall n m, op <> OpRegisterService n m) ->
  service_manager w' = service_manager w.
Proof.
  destruct op as [|n max|n|n|ctx|cmd ctx]; cbn [step]; intros H Hi Hr.
  - done.
  - by destruct (Hr n max).
  - by injection H as <-.
  - injection H as <-. apply ConnectToService_service_manager.
  - unfold InvokeControlRequest in H.
    destruct (controller_interface _); [|discriminate]. by injection H as <-.
  - destruct (SM_InvokeRequest cmd ctx w) as [[reply w1]| |] eqn:E;
      try discriminate.
    injection H as <-. by apply SM_InvokeRequest_service_manager in E.
Qed.

Lemma step_pointers op w w' :
  step op w = Done w' ->
  op <> OpInstallInterfaces ->
  sm_interface (service_manager w') = sm_interface (service_manager w) /\
  controller_interface (service_manager w')
    = controller_interface (service_manager w).
Proof.
  intros H Hi. destruct op as [|n max|n|n|ctx|cmd ctx]; try done;
    try (by rewrite (step_service_manager_same _ _ _ H)).
  cbn [step] in H. injection H as <-. unfold RegisterService.
  destruct (ValidateServiceName n); [|done].
  destruct (registered w !! n); [done|].
  by destruct (CreatePortPair max n (kernel w)) as [[sp cp] k].
Qed.

Lemma InstallInterfaces_Done w w' :
  InstallInterfaces w = Done w' <->
  sm_interface (service_manager w) = None /\
  w' = {| service_manager :=
            {| registered_services := registered w;
               sm_interface := Some MakeSM;
               controller_interface := Some MakeController |};
          kernel := InstallAsNamedPort "sm:" 4 (kernel w) |}.
Proof.
  unfold InstallInterfaces.
  destruct (sm_interface (service_manager w)) as [sm|]; simpl.
  - split; [discriminate | intros [[=] _]].
  - split; [intros [= <-]; by split | intros [_ ->]; reflexivity].
Qed.

Lemma run_pointers_no_install ops w w' :
  run ops w = Done w' ->
  OpInstallInterfaces ∉ ops ->
  sm_interface (service_manager w') = sm_interface (service_manager w) /\
  controller_interface (service_manager w')
    = controller_interface (service_manager w).
Proof.
  revert w. induction ops as [|op ops IH]; intros w Hrun Hno.
  - by injection Hrun as <-.
  - apply run_cons in Hrun as (w1 & Hstep & Hrun).
    apply not_elem_of_cons in Hno as [Hne Hno].
    destruct (IH w1 Hrun Hno) as [-> ->].
    apply (step_pointers _ _ _ Hstep). congruence.
Qed.

Lemma run_pointers_kept ops w w' :
  run ops w = Done w' ->
  sm_interface (service_manager w) = Some MakeSM ->
  controller_interface (service_manager w) = Some MakeController ->
  sm_interface (service_manager w') = Some MakeSM /\
  controller_interface (service_manager w') = Some MakeController.
Proof.
  revert w. induction ops as [|op ops IH]; intros w Hrun Hs Hc.
  - by injection Hrun as <-.
  - apply run_cons in Hrun as (w1 & Hstep & Hrun).
    assert (op <> OpInstallInterfaces) as Hne.
    { intros ->. cbn [step] in Hstep.
      apply InstallInterfaces_Done in Hstep as [Hn _]. congruence. }
    destruct (step_pointers _ _ _ Hstep Hne) as [Hs1 Hc1].
    apply (IH w1 Hrun); congruence.
Qed.

Lemma run_installed ops w w' :
  run ops w = Done w' ->
  OpInstallInterfaces ∈ ops ->
  sm_interface (service_manager w') = Some MakeSM /\
  controller_interface (service_manager w') = Some MakeController.
Proof.
  revert w. induction ops as [|op ops IH]; intros w Hrun Hin.
  - by apply not_elem_of_nil in Hin.
  - apply run_cons in Hrun as (w1 & Hstep & Hrun).
    apply elem_of_cons in Hin as [<-|Hin]; [|by apply (IH w1)].
    cbn [step] in Hstep. apply InstallInterfaces_Done in Hstep as [_ ->].
    by apply (run_pointers_kept _ _ _ Hrun).
Qed.

Lemma run_registered_origin ops w w' name client_port :
  run ops w = Done w' ->
  registered w' !! name = Some client_port ->
  registered w !! name = Some client_port \/
  exists max, OpRegisterService name max ∈ ops.
Proof.
  revert w. induction ops as [|op ops IH]; intros w Hrun Hl.
  - injection Hrun as <-. by left.
  - apply run_cons in Hrun as (w1 & Hstep & Hrun).
    destruct (IH w1 Hrun Hl) as [Hl1|[max Hin]].
    + destruct (step_registered _ _ _ name Hstep) as [Heq|(max & -> & _)].
      * left. by rewrite <- Heq.
      * right. exists max. apply list_elem_of_here.
    + right. exists max. by apply list_elem_of_further.
Qed.

(** X15.  Only [RegisterService] and [InstallInterfaces] change the
    registry object: a run made of lookups, connections, control requests
    and wire requests of any command, whatever they return, leaves the map
    and both pointers exactly as they were. *)
Theorem only_register_and_install_change_registry ops w w' :
  run ops w = Done w' ->
  (forall op, op ∈ ops ->
     op <> OpInstallInterfaces /\ forall n m, op <> OpRegisterService n m) ->
  service_manager w' = service_manager w.
Proof.
  revert w. induction ops as [|op ops IH]; intros w Hrun Hops.
  - by injection Hrun as <-.
  - apply run_cons in Hrun as (w1 & Hstep & Hrun).
    rewrite (IH w1 Hrun).
    + destruct (Hops op (list_elem_of_here _ _)) as [Hi Hr].
      by apply (step_service_manager_same _ _ _ Hstep).
    + intros op' Hin. apply Hops. by apply list_elem_of_further.
Qed.

(** X16.  On a registry run from its creation, a control request is
    undefined (the controller pointer is null) exactly when bring-up has
    not run; once it has, the request is forwarded to the controller and
    the registry object is kept. *)
Theorem InvokeControlRequest_defined k ops w ctx :
  run ops (fresh k) = Done w ->
  (InvokeControlRequest ctx w = Undefined <-> OpInstallInterfaces ∉ ops) /\
  (OpInstallInterfaces ∈ ops ->
   InvokeControlRequest ctx w =
     Done (with_kernel w (Controller_InvokeRequest (cmd_buf ctx) (kernel w)))).
Proof.
  intros Hrun. split; [split|].
  - intros Hu Hin. destruct (run_installed _ _ _ Hrun Hin) as [_ Hc].
    unfold InvokeControlRequest in Hu. rewrite Hc in Hu. discriminate.
  - intros Hno. destruct (run_pointers_no_install _ _ _ Hrun Hno) as [_ Hc].
    unfold InvokeControlRequest. by rewrite Hc.
  - intros Hin. destruct (run_installed _ _ _ Hrun Hin) as [_ Hc].
    unfold InvokeControlRequest. by rewrite Hc.
Qed.

(** X17.  On a registry run from its creation, [InstallInterfaces]
    returns exactly when it has not run before; it then keeps every
    registered service, records the dispatcher and the controller, and
    installs the named port ["sm:"] with 4 sessions in the kernel. *)
Theorem InstallInterfaces_first k ops w :
  run ops (fresh k) = Done w ->
  ((exists w1, InstallInterfaces w = Done w1) <-> OpInstallInterfaces ∉ ops) /\
  (OpInstallInterfaces ∉ ops ->
   InstallInterfaces w =
     Done {| service_manager :=
               {| registered_services := registered w;
                  sm_interface := Some MakeSM;
                  controller_interface := Some MakeController |};
             kernel := InstallAsNamedPort "sm:" 4 (kernel w) |}).
Proof.
  intros Hrun.
  assert (OpInstallInterfaces ∉ ops ->
          InstallInterfaces w =
            Done {| service_manager :=
                      {| registered_services := registered w;
                         sm_interface := Some MakeSM;
                         controller_interface := Some MakeController |};
                    kernel := InstallAsNamedPort "sm:" 4 (kernel w) |}) as Hfirst.
  { intros Hno. destruct (run_pointers_no_install _ _ _ Hrun Hno) as [Hs _].
    apply InstallInterfaces_Done. by split. }
  split; [split|exact Hfirst].
  - intros [w1 H1] Hin. apply InstallInterfaces_Done in H1 as [Hn _].
    destruct (run_installed _ _ _ Hrun Hin) as [Hs _]. congruence.
  - intros Hno. eexists. by apply Hfirst.
Qed.

(** X18.  On a registry run from its creation, every name in the map has
    1 to 8 bytes and no terminator, and was put there by a
    [RegisterService] of that name during the run. *)
Theorem registered_names_origin k ops w name client_port :
  run ops (fresh k) = Done w ->
  registered w !! name = Some client_port ->
  ((1 <= String.length name <= 8)%nat /\ NUL ∉ chars name) /\
  exists max, OpRegisterService name max ∈ ops.
Proof.
  intros Hrun Hl. split.
  - apply ValidateServiceName_success.
    eapply (run_keys_valid _ _ _ Hrun); [|exact Hl].
    intros n q Hq. simpl in Hq. by rewrite lookup_empty in Hq.
  - destruct (run_registered_origin _ _ _ _ _ Hrun Hl) as [Hq|H]; [|exact H].
    simpl in Hq. by rewrite lookup_empty in Hq.
Qed.

(** X19.  [GetService] looks at nothing but the decoded name: two requests
    whose name buffers decode alike, whatever their reserved words and
    whatever follows the terminator, get the same reply and leave the same
    world. *)
Theorem GetService_name_only ctx1 ctx2 w :
  string_from_cstr (GetService_name_buf ctx1)
    = string_from_cstr (GetService_name_buf ctx2) ->
  GetService ctx1 w = GetService ctx2 w.
Proof.
  unfold_GetService. intros H. by rewrite H.
Qed.

End RegistryTheory.

(** ** The statements on concrete inputs *)

Section Concrete.

Import Examples.

Local Existing Instance counting_kernel.

(** The scenario of the specification: ["fs"] registered with one session;
    the first [GetService] gets the session, the second gets the
    capacity-exceeded code together with the port. *)
Example GetService_fs_first :
  GetService ctx_fs w_fs =
    Done ({| normal_params_size := 1; num_handles_to_copy := 0;
             num_objects_to_move := 1;
             params := [RESULT_SUCCESS];
             objects := [ObjClientSession (0, 0)%nat] |}, w_fs_busy).
Proof. reflexivity. Qed.

Example GetService_fs_second :
  GetService ctx_fs w_fs_busy =
    Done ({| normal_params_size := 1; num_handles_to_copy := 0;
             num_objects_to_move := 1;
             params := [RESULT_ERROR ERR_MAX_CONNECTIONS_REACHED];
             objects := [ObjClientPort 0%nat] |}, w_fs_busy).
Proof. reflexivity. Qed.

Example GetService_nope :
  GetService ctx_nope w_fs =
    Done ({| normal_params_size := 1; num_handles_to_copy := 0;
             num_objects_to_move := 0;
             params := [RESULT_ERROR ERR_SERVICE_NOT_REGISTERED];
             objects := [] |}, w_fs).
Proof. reflexivity. Qed.

Lemma GetService_capacity_exceeded_witness :
  (exists rb,
     GetService ctx_fs w_fs_busy = Done (rb, with_kernel w_fs_busy (kernel w_fs_busy)) /\
     params rb = [RESULT_ERROR ERR_MAX_CONNECTIONS_REACHED] /\
     objects rb = [ObjClientPort 0%nat] /\
     registered_services (service_manager w_fs_busy) !! "fs" = Some 0%nat) /\
  objects (Push (MakeBuilder 1 0 0) (RESULT_ERROR ERR_SERVICE_NOT_REGISTERED)) = [].
Proof.
  split.
  - apply (proj1 (GetService_capacity_exceeded ctx_fs w_fs_busy)
             "fs" 0%nat ERR_MAX_CONNECTIONS_REACHED (kernel w_fs_busy));
      reflexivity.
  - apply (proj2 (GetService_capacity_exceeded ctx_nope w_fs)
             _ w_fs ERR_SERVICE_NOT_REGISTERED);
      [reflexivity | reflexivity | discriminate].
Defined.

Lemma register_then_resolve_witness :
  exists w1,
    RegisterService "fs" 1 w0 = (MakeResult 0%nat, w1) /\
    kernel w1 = kernel w_fs /\
    GetServicePort "fs" (service_manager w1) = MakeResult 0%nat.
Proof.
  apply (register_then_resolve "fs" 1 w0 0%nat 0%nat (kernel w_fs)).
  - simpl. lia.
  - apply string_find_None. reflexivity.
  - reflexivity.
  - reflexivity.
Defined.

Lemma register_twice_witness :
  RegisterService "fs" 5 w_fs_busy = (Failure ERR_ALREADY_REGISTERED, w_fs_busy) /\
  exists client_port,
    registered_services (service_manager w_fs) !! "fs" = Some client_port /\
    GetServicePort "fs" (service_manager (snd (RegisterService "fs" 5 w_fs_busy)))
      = MakeResult client_port.
Proof.
  apply (register_twice "fs" 1 5 w0 0%nat w_fs [OpInvokeRequest 1 ctx_fs] w_fs_busy);
    reflexivity.
Defined.

Lemma ValidateServiceName_table_witness :
  ValidateServiceName "" = RESULT_ERROR ERR_INVALID_NAME_SIZE /\
  ValidateServiceName "abcdefghi" = RESULT_ERROR ERR_INVALID_NAME_SIZE /\
  ValidateServiceName short_name_with_nul = RESULT_ERROR ERR_NAME_CONTAINS_NUL /\
  ValidateServiceName "abcdefgh" = RESULT_SUCCESS /\
  RegisterService "" 1 w0 = (Failure ERR_INVALID_NAME_SIZE, w0) /\
  GetServicePort "" (service_manager w0) = Failure ERR_INVALID_NAME_SIZE.
Proof.
  split; [|split; [|split; [|split]]].
  - apply (proj1 (ValidateServiceName_table "")). reflexivity.
  - apply (proj1 (proj2 (ValidateServiceName_table "abcdefghi"))). simpl. lia.
  - apply (proj1 (proj2 (proj2 (ValidateServiceName_table short_name_with_nul)))).
    + simpl. lia.
    + apply list_elem_of_In. simpl. right. right. left. reflexivity.
  - apply (proj1 (proj2 (proj2 (proj2 (ValidateServiceName_table "abcdefgh"))))).
    + reflexivity.
    + apply string_find_None. reflexivity.
  - apply (proj2 (proj2 (proj2 (proj2 (ValidateServiceName_table ""))))
             ERR_INVALID_NAME_SIZE 1%nat w0).
    reflexivity.
Defined.

(** C4, as stated, fails on a nine-byte name with a terminator inside: it
    is longer than 8 bytes and contains a terminator, and validation
    answers [ERR_INVALID_NAME_SIZE], not [ERR_NAME_CONTAINS_NUL]. *)
Lemma ValidateServiceName_long_name_with_nul :
  String.length long_name_with_nul = 9%nat /\
  NUL ∈ chars long_name_with_nul /\
  ValidateServiceName long_name_with_nul = RESULT_ERROR ERR_INVALID_NAME_SIZE /\
  ValidateServiceName long_name_with_nul <> RESULT_ERROR ERR_NAME_CONTAINS_NUL.
Proof.
  split; [reflexivity|]. split; [|split; [reflexivity | discriminate]].
  apply list_elem_of_In. simpl. do 4 right. left. reflexivity.
Qed.

Lemma unregistered_name_not_registered_witness :
  (GetServicePort "nope" (service_manager w_fs) = Failure ERR_SERVICE_NOT_REGISTERED /\
   ConnectToService "nope" w_fs = (Failure ERR_SERVICE_NOT_REGISTERED, w_fs)) /\
  (GetServicePort "nope" (service_manager w_fs_busy) = Failure ERR_SERVICE_NOT_REGISTERED /\
   ConnectToService "nope" w_fs_busy = (Failure ERR_SERVICE_NOT_REGISTERED, w_fs_busy)) /\
  (GetServicePort "" (service_manager w_fs) = Failure ERR_INVALID_NAME_SIZE /\
   ConnectToService "" w_fs = (Failure ERR_INVALID_NAME_SIZE, w_fs)) /\
  (GetServicePort "abcdefghi" (service_manager w_fs) = Failure ERR_INVALID_NAME_SIZE /\
   ConnectToService "abcdefghi" w_fs = (Failure ERR_INVALID_NAME_SIZE, w_fs)) /\
  (GetServicePort short_name_with_nul (service_manager w_fs)
     = Failure ERR_NAME_CONTAINS_NUL /\
   ConnectToService short_name_with_nul w_fs = (Failure ERR_NAME_CONTAINS_NUL, w_fs)) /\
  (GetServicePort long_name_with_nul (service_manager w_fs)
     = Failure ERR_INVALID_NAME_SIZE /\
   ConnectToService long_name_with_nul w_fs = (Failure ERR_INVALID_NAME_SIZE, w_fs)).
Proof.
  assert ((1 <= String.length "nope" <= 8)%nat) as Hlen by (simpl; lia).
  assert (NUL ∉ chars "nope") as Hnul by (apply string_find_None; reflexivity).
  split; [|split; [|split; [|split; [|split]]]].
  - apply (proj1 (proj1 (@unregistered_name_not_registered counting_kernel
                           "nope") Hlen Hnul) w_fs).
    reflexivity.
  - apply (proj2 (proj1 (@unregistered_name_not_registered counting_kernel
                           "nope") Hlen Hnul)
             CountingKernel.empty
             [OpRegisterService "fs" 1; OpInvokeRequest 1 ctx_fs] w_fs_busy).
    + reflexivity.
    + intros max Hin. apply list_elem_of_In in Hin. simpl in Hin.
      destruct Hin as [Hin|[Hin|[]]]; discriminate Hin.
  - apply (proj1 (proj2 (@unregistered_name_not_registered counting_kernel ""))).
    left. reflexivity.
  - apply (proj1 (proj2 (@unregistered_name_not_registered counting_kernel
                           "abcdefghi"))).
    right. simpl. lia.
  - apply (proj1 (proj2 (proj2 (@unregistered_name_not_registered counting_kernel
                                  short_name_with_nul)))).
    + simpl. lia.
    + apply list_elem_of_In. simpl. right. right. left. reflexivity.
  - apply (proj2 (proj2 (proj2 (@unregistered_name_not_registered counting_kernel
                                  long_name_with_nul)))
             ERR_INVALID_NAME_SIZE w_fs).
    reflexivity.
Defined.

(** C5, as stated, fails on the empty name: it was never registered, and
    both lookups answer [ERR_INVALID_NAME_SIZE]. *)
Lemma unregistered_empty_name :
  registered_services (service_manager w0) !! "" = None /\
  GetServicePort "" (service_manager w0) = Failure ERR_INVALID_NAME_SIZE /\
  ConnectToService "" w0 = (Failure ERR_INVALID_NAME_SIZE, w0) /\
  GetServicePort "" (service_manager w0) <> Failure ERR_SERVICE_NOT_REGISTERED /\
  fst (ConnectToService "" w0) <> Failure ERR_SERVICE_NOT_REGISTERED.
Proof. repeat split; discriminate. Qed.

Lemma InstallInterfaces_twice_witness :
  InstallInterfaces (snd (RegisterService "fs" 1 w_installed)) = AssertionFailed.
Proof.
  apply (@InstallInterfaces_twice counting_kernel w0 w_installed
           [OpRegisterService "fs" 1]); reflexivity.
Defined.

Lemma ConnectToService_composition_witness :
  ConnectToService "fs" w_fs = connect_spec "fs" w_fs /\
  ConnectToService "nope" w_fs = (Failure ERR_SERVICE_NOT_REGISTERED, w_fs) /\
  ConnectToService "fs" w_fs =
    (fst (Connect 0%nat (kernel w_fs)),
     with_kernel w_fs (snd (Connect 0%nat (kernel w_fs)))).
Proof.
  split; [|split].
  - apply (proj1 (@ConnectToService_composition counting_kernel "fs" w_fs)).
  - apply (proj1 (proj2 (@ConnectToService_composition counting_kernel "nope" w_fs))).
    reflexivity.
  - apply (proj2 (proj2 (@ConnectToService_composition counting_kernel "fs" w_fs))).
    reflexivity.
Defined.

Lemma registered_entries_persist_witness :
  exists w',
    run [OpInvokeRequest 1 ctx_fs; OpRegisterService "fs" 3;
         OpInvokeRequest 3 ctx_fs; OpRegisterService "sm" 2] w_fs = Done w' /\
    NoDup (map_to_list (registered_services (service_manager w'))).*1 /\
    forall name client_port,
      registered_services (service_manager w_fs) !! name = Some client_port ->
      registered_services (service_manager w') !! name = Some client_port /\
      GetServicePort name (service_manager w') = MakeResult client_port.
Proof.
  eexists. split; [reflexivity|].
  apply (@registered_entries_persist counting_kernel CountingKernel.empty
           [OpRegisterService "fs" 1] w_fs
           [OpInvokeRequest 1 ctx_fs; OpRegisterService "fs" 3;
            OpInvokeRequest 3 ctx_fs; OpRegisterService "sm" 2]); reflexivity.
Defined.

Example GetService_eight_byte_name :
  string_from_cstr (GetService_name_buf ctx_eight) = Some "abcdefgh" /\
  string_from_cstr (GetService_name_buf ctx_unterminated) = None.
Proof. split; reflexivity. Qed.


(** *** The further properties on concrete inputs *)

(** Closes a goal [op ∉ ops] or splits a hypothesis [op ∈ ops] over a
    literal list of operations. *)
Ltac not_in_ops :=
  let Hin := fresh "Hin" in
  intros Hin;
  repeat (apply elem_of_cons in Hin as [Hin|Hin]; [discriminate Hin|]);
  by apply not_elem_of_nil in Hin.

Lemma RegisterService_failure_witness :
  w_fs = w_fs /\
  (ValidateServiceName "fs" = RESULT_ERROR ERR_ALREADY_REGISTERED \/
   (ERR_ALREADY_REGISTERED = ERR_ALREADY_REGISTERED /\
    ValidateServiceName "fs" = RESULT_SUCCESS /\
    is_Some (registered_services (service_manager w_fs) !! "fs"))).
Proof.
  apply (@RegisterService_failure counting_kernel "fs" 5 w_fs
           ERR_ALREADY_REGISTERED w_fs).
  reflexivity.
Defined.

Lemma RegisterService_frame_witness :
  registered_services (service_manager (snd (RegisterService "sm" 2 w_fs))) !! "fs"
    = registered_services (service_manager w_fs) !! "fs" /\
  GetServicePort "fs" (service_manager (snd (RegisterService "sm" 2 w_fs)))
    = GetServicePort "fs" (service_manager w_fs) /\
  sm_interface (service_manager (snd (RegisterService "sm" 2 w_fs)))
    = sm_interface (service_manager w_fs) /\
  controller_interface (service_manager (snd (RegisterService "sm" 2 w_fs)))
    = controller_interface (service_manager w_fs).
Proof.
  apply (@RegisterService_frame counting_kernel "sm" 2 w_fs "fs").
  discriminate.
Defined.

Lemma RegisterService_size_witness :
  size (registered_services (service_manager w_fs))
    = S (size (registered_services (service_manager w0))) /\
  dom (registered_services (service_manager w_fs))
    = {[ "fs" ]} ∪ dom (registered_services (service_manager w0)).
Proof.
  apply (@RegisterService_size counting_kernel "fs" 1 w0 0%nat w_fs).
  reflexivity.
Defined.

Lemma register_then_connect_witness :
  ConnectToService "fs" (snd (RegisterService "fs" 1 w0)) =
    (fst (Connect 0%nat (kernel w_fs)),
     with_kernel (snd (RegisterService "fs" 1 w0))
       (snd (Connect 0%nat (kernel w_fs)))).
Proof.
  apply (@register_then_connect counting_kernel "fs" 1 w0 0%nat 0%nat (kernel w_fs)).
  - simpl. lia.
  - apply string_find_None. reflexivity.
  - reflexivity.
  - reflexivity.
Defined.

Lemma GetService_reply_shape_witness :
  exists rb,
    GetService ctx_fs w_fs_busy = Done (rb, w_fs_busy) /\
    normal_params_size rb = 1%nat /\
    length (params rb) = 1%nat /\
    num_handles_to_copy rb = 0%nat /\
    num_objects_to_move rb = length (objects rb) /\
    (length (objects rb) <= 1)%nat.
Proof.
  eexists. split; [reflexivity|].
  apply (@GetService_reply_shape counting_kernel ctx_fs w_fs_busy _ w_fs_busy).
  reflexivity.
Defined.

Lemma GetService_unresolved_witness :
  GetService ctx_nope w_fs =
    Done (Push (MakeBuilder 1 0 0) (RESULT_ERROR ERR_SERVICE_NOT_REGISTERED), w_fs).
Proof.
  apply (@GetService_unresolved counting_kernel ctx_nope w_fs "nope"
           ERR_SERVICE_NOT_REGISTERED); reflexivity.
Defined.

Lemma GetService_object_kind_witness :
  exists name port s k,
    string_from_cstr (GetService_name_buf ctx_fs) = Some name /\
    GetServicePort name (service_manager w_fs) = MakeResult port /\
    Connect port (kernel w_fs) = (MakeResult s, k) /\
    [@ObjClientSession counting_kernel (0, 0)%nat] = [ObjClientSession s] /\
    w_fs_busy = with_kernel w_fs k.
Proof.
  apply (proj2 (proj2 (@GetService_object_kind counting_kernel ctx_fs w_fs
           {| normal_params_size := 1; num_handles_to_copy := 0;
              num_objects_to_move := 1;
              params := [RESULT_SUCCESS];
              objects := [@ObjClientSession counting_kernel (0, 0)%nat] |}
           w_fs_busy eq_refl))).
  reflexivity.
Defined.

Lemma GetService_is_ConnectToService_witness :
  exists rb,
    GetService ctx_fs w_fs_busy = Done (rb, snd (ConnectToService "fs" w_fs_busy)) /\
    params rb = [Code (fst (ConnectToService "fs" w_fs_busy))].
Proof.
  apply (@GetService_is_ConnectToService counting_kernel ctx_fs w_fs_busy "fs").
  reflexivity.
Defined.

Lemma GetService_decoded_name_witness :
  (String.length "abcdefgh" <= 8)%nat /\
  (NUL ∉ chars "abcdefgh") /\
  ("abcdefgh" <> "" -> ValidateServiceName "abcdefgh" = RESULT_SUCCESS) /\
  (forall sm : @ServiceManager counting_kernel,
     GetServicePort "abcdefgh" sm <> Failure ERR_NAME_CONTAINS_NUL).
Proof.
  apply (@GetService_decoded_name counting_kernel ctx_eight "abcdefgh").
  reflexivity.
Defined.

Lemma string_from_cstr_terminated_witness :
  string_from_cstr (chars "fs" ++ NUL :: chars "junk")%list = Some "fs".
Proof.
  apply (string_from_cstr_terminated "fs" (chars "junk")).
  apply string_find_None. reflexivity.
Defined.

Lemma only_register_and_install_change_registry_witness :
  service_manager w_fs_busy = service_manager w_fs.
Proof.
  apply (@only_register_and_install_change_registry counting_kernel
           [OpGetServicePort "fs"; OpInvokeRequest 3 ctx_fs;
            OpInvokeRequest 1 ctx_fs; OpConnectToService "fs"]
           w_fs w_fs_busy).
  - reflexivity.
  - intros op Hin.
    repeat (apply elem_of_cons in Hin as [->|Hin];
            [split; [discriminate | intros n m; discriminate]|]).
    by apply not_elem_of_nil in Hin.
Defined.

Lemma InvokeControlRequest_defined_witness :
  InvokeControlRequest ctx_fs w_fs = Undefined /\
  InvokeControlRequest ctx_fs w_installed =
    Done (with_kernel w_installed
            (Controller_InvokeRequest (cmd_buf ctx_fs) (kernel w_installed))).
Proof.
  split.
  - apply (proj1 (@InvokeControlRequest_defined counting_kernel
             CountingKernel.empty [OpRegisterService "fs" 1] w_fs ctx_fs eq_refl)).
    not_in_ops.
  - apply (proj2 (@InvokeControlRequest_defined counting_kernel
             CountingKernel.empty [OpInstallInterfaces] w_installed ctx_fs eq_refl)).
    apply list_elem_of_here.
Defined.

Lemma InstallInterfaces_first_witness :
  InstallInterfaces w_fs =
    Done {| service_manager :=
              {| registered_services := registered_services (service_manager w_fs);
                 sm_interface := Some MakeSM;
                 controller_interface := Some MakeController |};
            kernel := InstallAsNamedPort "sm:" 4 (kernel w_fs) |}.
Proof.
  apply (proj2 (@InstallInterfaces_first counting_kernel
           CountingKernel.empty [OpRegisterService "fs" 1] w_fs eq_refl)).
  not_in_ops.
Defined.

Lemma registered_names_origin_witness :
  ((1 <= String.length "fs" <= 8)%nat /\ NUL ∉ chars "fs") /\
  exists max,
    OpRegisterService "fs" max
      ∈ [OpRegisterService "fs" 1; OpInvokeRequest 1 ctx_fs].
Proof.
  apply (@registered_names_origin counting_kernel CountingKernel.empty
           [OpRegisterService "fs" 1; OpInvokeRequest 1 ctx_fs]
           w_fs_busy "fs" 0%nat); reflexivity.
Defined.

Lemma GetService_name_only_witness :
  GetService ctx_fs w_fs = GetService ctx_fs_noise w_fs.
Proof.
  apply (@GetService_name_only counting_kernel ctx_fs ctx_fs_noise w_fs).
  reflexivity.
Defined.

End Concrete.
